(** * Choice models of FeedbackLoops4RecSys ([choice_models.py])

    A shallow embedding of the choice-model engine: the rank weight
    [ranked_prob], the eligibility prefilter, the three choice models
    (uniform, rank based, country centric) and the dispatcher
    [accept_new_recommendations].

    Conventions of the embedding.
    - A Python [int] is a [Z]; a Python [float] (numpy [float64]) is a real
      number [R] and [np.exp] the real exponential. Properties proved on
      these are stated on the inputs on which float64 decides the same way
      which weights are zero and whether the sampler accepts a vector;
      module [F64] has the weighting and the rank-based model on binary64
      numbers and shows what the code does outside that range.
    - A raised exception is the [Raise] branch of [result]; statements that
      may raise are sequenced with [x <- c ;; k].
    - The ambient random generator ([np.random], pandas' [sample]) is an
      explicit state of a type [G] with the interface [RandomSource]; every
      model takes the state and gives back the one it leaves behind.
    - A [DataFrame] is the list of its rows, in row order, each row a record
      of the columns the code reads. *)

From Stdlib Require Import String Ascii.
From Stdlib Require Import ZArith List Bool Arith Lia.
From Stdlib Require Import Reals Lra.
From Corelib Require PrimFloat.
From Stdlib Require Uint63.
Import ListNotations.

Open Scope string_scope.
Open Scope list_scope.
Open Scope Z_scope.

(** ** Exceptions and results *)

Inductive exn : Type :=
| IndexError
| ValueError
| NotImplementedError (msg : string).

Inductive result (A : Type) : Type :=
| Ok (a : A)
| Raise (e : exn).

Arguments Ok {A} a.
Arguments Raise {A} e.

Definition bind {A B : Type} (c : result A) (k : A -> result B) : result B :=
  match c with
  | Ok a => k a
  | Raise e => Raise e
  end.

Notation "x <- c ;; k" := (bind c (fun x => k))
  (at level 61, c at next level, right associativity).

(** ** numpy on one-dimensional arrays of floats *)

Module Np.

Open Scope R_scope.

(** [np.sum] *)
Definition sum (a : list R) : R := fold_right Rplus 0 a.

(** [a / s], an array divided by a scalar *)
Definition div (a : list R) (s : R) : list R := map (fun x => x / s) a.

(** [a * b], element by element; the code only multiplies arrays of the
    same length *)
Definition mul (a b : list R) : list R :=
  map (fun xy => fst xy * snd xy) (combine a b).

(** [np.max]; numpy refuses an empty array *)
Definition max (a : list R) : result R :=
  match a with
  | [] => Raise ValueError
  | x :: t => Ok (fold_left Rmax t x)
  end.

(** [range(lo, hi)] over Python integers *)
Definition range (lo hi : Z) : list Z :=
  map (fun i => lo + Z.of_nat i)%Z (seq 0 (Z.to_nat (hi - lo))).

End Np.

(** ** Probability weighting (source lines 6-7) *)

Open Scope R_scope.

Definition ranked_prob (p : Z) (alpha : R) : R := exp (- alpha * IZR p).

(** The weight vector both rank-aware models build:
    [[ranked_prob(i, alpha) for i in range(1, n + 1)]] *)
Definition ranked_p_list (n : nat) (alpha : R) : list R :=
  map (fun i => ranked_prob i alpha) (Np.range 1 (Z.of_nat n + 1)).

(** The rank-based model's [p_list] after its normalisation
    (source lines 46-48) for a user with [n] candidates. *)
Definition rank_based_p_list (n : nat) (alpha : R) : list R :=
  let p_list := ranked_p_list n alpha in
  Np.div p_list (Np.sum p_list).

Definition default_alpha : R := 1 / 10.

Close Scope R_scope.

(** ** Data model *)

(** A row of a table with the columns [user_id] and [item_id]: a
    recommendation of the input batch, or an acceptance of the output. *)
Record row : Type := { user_id : Z; item_id : Z }.

Definition Recommendations : Type := list row.

(** Demographics: the columns [user_id] and [country]. *)
Record demographic : Type := { demo_user_id : Z; demo_country : string }.

Definition Demographics : Type := list demographic.

(** Tracks: the index label of the row (the item id) and the column
    [country]. *)
Record track : Type := { track_item_id : Z; track_country : string }.

Definition Tracks : Type := list track.

(** A Python scalar as it occurs in [isin]: a user id or a column label. *)
Inductive scalar : Type :=
| SInt (z : Z)
| SStr (s : string).

Definition scalar_eqb (a b : scalar) : bool :=
  match a, b with
  | SInt x, SInt y => Z.eqb x y
  | SStr x, SStr y => String.eqb x y
  | _, _ => false
  end.

(** ** pandas *)

Module Pd.

(** [df.loc[df['country'] == c]]: the rows whose country is [c] *)
Definition loc_country (demographics : Demographics) (c : string) : Demographics :=
  filter (fun d => String.eqb (demo_country d) c) demographics.

(** [list(df)]: iterating a DataFrame yields its column labels, whatever
    its rows are. The labels of the demographics table are strings; columns
    the code does not read would add further strings. *)
Definition labels (demographics : Demographics) : list scalar :=
  [SStr "user_id"; SStr "country"].

(** [value in values], the test [Series.isin] makes for each element *)
Definition isin (value : scalar) (values : list scalar) : bool :=
  existsb (scalar_eqb value) values.

(** [df.loc[df['user_id'] == u]] *)
Definition loc_user (recommendations : Recommendations) (u : Z) : Recommendations :=
  filter (fun r => Z.eqb (user_id r) u) recommendations.

(** [Series.unique]: the distinct values in order of first appearance *)
Fixpoint unique_from (seen : list Z) (values : list Z) : list Z :=
  match values with
  | [] => []
  | x :: rest =>
      if existsb (Z.eqb x) seen then unique_from seen rest
      else x :: unique_from (x :: seen) rest
  end.

Definition unique (values : list Z) : list Z := unique_from [] values.

(** [df.iloc[i]]: the row at position [i], counted from the end when [i]
    is negative; a position outside the table raises [IndexError] *)
Definition iloc {A : Type} (rows : list A) (i : Z) : result A :=
  let n := Z.of_nat (length rows) in
  let pos := if i <? 0 then n + i else i in
  if (0 <=? pos) && (pos <? n) then
    match nth_error rows (Z.to_nat pos) with
    | Some r => Ok r
    | None => Raise IndexError
    end
  else Raise IndexError.

(** [df.iloc[positions]] for a list of positions *)
Fixpoint iloc_list {A : Type} (rows : list A) (positions : list Z) : result (list A) :=
  match positions with
  | [] => Ok []
  | i :: rest =>
      r <- iloc rows i ;;
      rs <- iloc_list rows rest ;;
      Ok (r :: rs)
  end.

(** [df.loc[key]] on the tracks table: the row labelled [key] *)
Definition loc_track (tracks : Tracks) (key : Z) : option track :=
  find (fun t => Z.eqb (track_item_id t) key) tracks.

End Pd.

(** ** The random source *)

Open Scope R_scope.

(** [np.random.choice] accepts [p] when it is not empty, has no negative
    entry and sums to 1 up to [sqrt(eps)], [eps = 2^-52] *)
Definition atol : R := / 2 ^ 26.

Definition valid_probabilities (p : list R) : Prop :=
  p <> [] /\ Forall (fun x => 0 <= x) p /\ Rabs (Np.sum p - 1) <= atol.

Close Scope R_scope.

(** The generator behind pandas' [sample] and [np.random.choice]. Each draw
    gives a position and the generator's next state; nothing is assumed on
    the draws but that they are positions of the population, so what is
    proved below holds for every seed and every generator. *)
Class RandomSource (G : Type) : Type := {
  uniform_position : G -> nat -> nat * G;
  uniform_position_lt :
    forall g n, (0 < n)%nat -> (fst (uniform_position g n) < n)%nat;
  weighted_position : G -> list R -> nat * G;
  weighted_position_lt :
    forall g p, valid_probabilities p ->
                (fst (weighted_position g p) < length p)%nat
}.

(** A generator that is a counter: draw number [g] from a population of
    [n] is [g mod n]. *)
#[export] Instance counter_source : RandomSource nat.
Proof.
  refine {| uniform_position := fun g n => (Nat.modulo g n, S g);
            weighted_position := fun g p => (Nat.modulo g (length p), S g) |}.
  - intros g n Hn. simpl. apply Nat.mod_upper_bound. lia.
  - intros g p [Hp _]. simpl. apply Nat.mod_upper_bound.
    destruct p; [congruence | simpl; lia].
Defined.

Section Models.

Context {G : Type} `{RandomSource G}.

(** [df.sample(1)]: one row drawn uniformly; an empty frame is refused *)
Definition sample1 (g : G) (recs : Recommendations) : result (row * G) :=
  match recs with
  | [] => Raise ValueError
  | _ =>
      let d := uniform_position g (length recs) in
      r <- Pd.iloc recs (Z.of_nat (fst d)) ;;
      Ok (r, snd d)
  end.

(** [np.random.choice(range(0, n), p=p)] *)
Definition np_random_choice (g : G) (n : nat) (p : list R) : result (nat * G) :=
  if Nat.eqb n 0 then Raise ValueError
  else if negb (Nat.eqb (length p) n) then Raise ValueError
  else if existsb (fun x => if Rlt_dec x 0 then true else false) p then Raise ValueError
  else if Rlt_dec atol (Rabs (Np.sum p - 1)) then Raise ValueError
  else Ok (weighted_position g p).

(** The loop all three models share:
    [for user_id in recommendations['user_id'].unique(): ...], where the
    body either appends one row to [acc_list] or [continue]s. *)
Fixpoint for_each_user (body : G -> Z -> result (option row * G))
         (users : list Z) (g : G) (acc_list : list row) : result (list row * G) :=
  match users with
  | [] => Ok (acc_list, g)
  | u :: rest =>
      r <- body g u ;;
      match fst r with
      | Some a => for_each_user body rest (snd r) (acc_list ++ [a])
      | None => for_each_user body rest (snd r) acc_list
      end
  end.

End Models.


(** ** Eligibility prefilter (source lines 10-23) *)

(** Python's truth value of [control_country: str | None] *)
Definition truthy (control_country : option string) : bool :=
  match control_country with
  | None => false
  | Some c => negb (String.eqb c "")
  end.

Definition prefilter_recommendations (recommendations : Recommendations)
  (demographics : Demographics) (tracks : Tracks)
  (control_country : option string) : Recommendations :=
  let filtered_recs := recommendations in
  match control_country with
  | Some c =>
      if truthy control_country then
        let frozen_users := Pd.labels (Pd.loc_country demographics c) in
        filter (fun r => negb (Pd.isin (SInt (user_id r)) frozen_users)) filtered_recs
      else filtered_recs
  | None => filtered_recs
  end.

(** What the docstring and the comment of the prefilter describe: the users
    of the control country, and the batch without their rows. *)
Definition control_users (demographics : Demographics) (c : string) : list Z :=
  map demo_user_id (Pd.loc_country demographics c).

Definition prefilter_documented (recommendations : Recommendations)
  (demographics : Demographics) (c : string) : Recommendations :=
  filter (fun r => negb (existsb (Z.eqb (user_id r)) (control_users demographics c)))
         recommendations.

(** ** Country-centric weights (source lines 71-88), for one user *)

(** [tracks.iloc[recs['item_id']]['country'] == country] *)
Definition from_country_flags (tracks : Tracks) (items : list Z) (country : string)
  : result (list bool) :=
  rows <- Pd.iloc_list tracks items ;;
  Ok (map (fun t => String.eqb (track_country t) country) rows).

(** [country_p_mod] (source lines 75-79) *)
Definition country_p_mod (from_country : list bool) (non_country_chance : R)
  (invert : bool) : list R :=
  if invert then map (fun x : bool => if x then non_country_chance else 1%R) from_country
  else map (fun x : bool => if x then 1%R else non_country_chance) from_country.

(** The combined weights [p_list = ranked_p_list * country_p_mod]
    (source lines 71-81). The decay rate is the literal [0.1] of line 74;
    the parameter [alpha] is in scope and not read. *)
Definition country_centric_weights (tracks : Tracks) (items : list Z)
  (country : string) (non_country_chance : R) (invert : bool) (alpha : R)
  : result (list R) :=
  from_country <- from_country_flags tracks items country ;;
  let ranked := ranked_p_list (length items) (1 / 10)%R in
  Ok (Np.mul ranked (country_p_mod from_country non_country_chance invert)).

(** The distribution handed to the sampler (source lines 71-88): [None]
    when the user is skipped by the [continue] of line 85. *)
Definition country_centric_p_list (tracks : Tracks) (items : list Z)
  (country : string) (non_country_chance : R) (invert : bool) (alpha : R)
  : result (option (list R)) :=
  p_list <- country_centric_weights tracks items country non_country_chance invert alpha ;;
  m <- Np.max p_list ;;
  if Req_dec_T m 0 then Ok None
  else Ok (Some (Np.div p_list (Np.sum p_list))).

Section ChoiceModels.

Context {G : Type} `{RandomSource G}.

(** ** Random model (source lines 26-34) *)

Definition choice_model_random_body (recommendations : Recommendations)
  (g : G) (u : Z) : result (option row * G) :=
  let recs := Pd.loc_user recommendations u in
  s <- sample1 g recs ;;
  Ok (Some {| user_id := u; item_id := item_id (fst s) |}, snd s).

Definition choice_model_random (g : G) (recommendations : Recommendations)
  : result (list row * G) :=
  for_each_user (choice_model_random_body recommendations)
                (Pd.unique (map user_id recommendations)) g [].

(** ** Rank-based model (source lines 37-52) *)

Definition choice_model_rank_based_body (recommendations : Recommendations)
  (alpha : R) (g : G) (u : Z) : result (option row * G) :=
  let recs := Pd.loc_user recommendations u in
  let p_list := rank_based_p_list (length recs) alpha in
  c <- np_random_choice g (length recs) p_list ;;
  r <- Pd.iloc recs (Z.of_nat (fst c)) ;;
  Ok (Some {| user_id := u; item_id := item_id r |}, snd c).

Definition choice_model_rank_based (g : G) (recommendations : Recommendations)
  (alpha : R) : result (list row * G) :=
  for_each_user (choice_model_rank_based_body recommendations alpha)
                (Pd.unique (map user_id recommendations)) g [].

(** ** Country-centric model (source lines 55-93) *)

Definition country_centric_body (recommendations : Recommendations)
  (tracks : Tracks) (country : string) (non_country_chance : R)
  (invert : bool) (alpha : R) (g : G) (u : Z) : result (option row * G) :=
  let recs := Pd.loc_user recommendations u in
  d <- country_centric_p_list tracks (map item_id recs) country
         non_country_chance invert alpha ;;
  match d with
  | None => Ok (None, g)
  | Some p_list =>
      c <- np_random_choice g (length recs) p_list ;;
      r <- Pd.iloc recs (Z.of_nat (fst c)) ;;
      Ok (Some {| user_id := u; item_id := item_id r |}, snd c)
  end.

Definition country_centric (g : G) (recommendations : Recommendations)
  (tracks : Tracks) (country : string) (non_country_chance : R)
  (invert : bool) (alpha : R) : result (list row * G) :=
  for_each_user
    (country_centric_body recommendations tracks country non_country_chance invert alpha)
    (Pd.unique (map user_id recommendations)) g [].

(** ** Dispatcher (source lines 96-114) *)

Definition accept_new_recommendations (g : G) (choice_model : string)
  (recommendations : Recommendations) (demographics : Demographics)
  (tracks : Tracks) (k : Z) : result (list row * G) :=
  if String.eqb choice_model "random" then
    choice_model_random g recommendations
  else if String.eqb choice_model "rank_based" then
    choice_model_rank_based g recommendations default_alpha
  else if String.eqb choice_model "us_centric" then
    country_centric g recommendations tracks "US" 0%R false default_alpha
  else if String.eqb choice_model "non_us_centric" then
    country_centric g recommendations tracks "US" 0%R true default_alpha
  else Raise (NotImplementedError "Unknown Choice model!").

End ChoiceModels.

(** The four names the dispatcher knows. *)
Definition model_names : list string :=
  ["random"; "rank_based"; "us_centric"; "non_us_centric"].

(** [needle in hay] on Python strings *)
Fixpoint contains (needle hay : string) : bool :=
  if String.prefix needle hay then true
  else match hay with
       | EmptyString => false
       | String _ rest => contains needle rest
       end.


(** ** Vocabulary of the properties *)

(** The number of rows a table has for a user *)
Definition rows_of_user (table : list row) (u : Z) : nat :=
  count_occ Z.eq_dec (map user_id table) u.

(** At most one row per user, and every row is a row of the batch: its item
    is one of the candidates of its user. *)
Definition at_most_one_each (recommendations : Recommendations) (acc : list row) : Prop :=
  (forall u, (rows_of_user acc u <= 1)%nat) /\
  Forall (fun a => In a recommendations) acc.

(** In addition, one row for each user of the batch. *)
Definition exactly_one_each (recommendations : Recommendations) (acc : list row) : Prop :=
  at_most_one_each recommendations acc /\
  forall u, In u (map user_id recommendations) -> rows_of_user acc u = 1%nat.

(** Every item id of the batch is a row position of the tracks table. *)
Definition positions_valid (tracks : Tracks) (recommendations : Recommendations) : Prop :=
  Forall (fun r => - Z.of_nat (length tracks) <= item_id r < Z.of_nat (length tracks))
         recommendations.

(** All the weights of an array are zero, as a test. *)
Definition all_zero (w : list R) : bool :=
  forallb (fun x => if Req_dec_T x 0 then true else false) w.

(** The errors the choice models themselves can raise. *)
Definition model_error (e : exn) : Prop := e = IndexError \/ e = ValueError.

(** ** Vocabulary of the further properties *)

(** The track at row position [i] of the tracks table is from [country]
    (the flag line 71 computes for a candidate with item id [i]). *)
Definition is_from_country (tracks : Tracks) (country : string) (i : Z) : bool :=
  match Pd.iloc tracks i with
  | Ok t => String.eqb (track_country t) country
  | Raise _ => false
  end.

(** The class the country modifier favours: the tracks of the country, or
    in inverted mode the others. *)
Definition favoured (tracks : Tracks) (country : string) (invert : bool) (i : Z) : bool :=
  Bool.eqb (is_from_country tracks country i) (negb invert).

(** A user has a candidate of the favoured class. *)
Definition has_favoured (tracks : Tracks) (country : string) (invert : bool)
  (recommendations : Recommendations) (u : Z) : bool :=
  existsb (fun r => favoured tracks country invert (item_id r))
          (Pd.loc_user recommendations u).

(** A random source whose weighted draws have positive probability, as the
    draws of [np.random.choice] have: it returns the position at which the
    cumulated probabilities pass a uniform draw of [0, 1). *)
Class SupportSource (G : Type) {RS : RandomSource G} : Prop :=
  weighted_position_support :
    forall g p, valid_probabilities p ->
                (0 < nth (fst (weighted_position g p)) p 0)%R.

(** The first position with a positive probability. *)
Fixpoint first_positive (p : list R) : nat :=
  match p with
  | [] => 0%nat
  | x :: rest => if Rlt_dec 0 x then 0%nat else S (first_positive rest)
  end.

(** A source that counts its draws and always takes the first candidate
    that has a positive probability. *)
Record first_fit : Type := { draws : nat }.

#[export] Instance first_fit_source : RandomSource first_fit.
Proof.
  refine {| uniform_position := fun g n => (0%nat, {| draws := S (draws g) |});
            weighted_position :=
              fun g p => (first_positive p, {| draws := S (draws g) |}) |}.
  - intros g n Hn. exact Hn.
  - intros g p [_ [_ Hs]]. cbn [fst].
    assert (Hat : (atol < 1)%R).
    { unfold atol. assert (1 < 2 ^ 26)%R by lra.
      rewrite <- Rinv_1. apply Rinv_lt_contravar; lra. }
    assert (Hpos : (0 < Np.sum p)%R).
    { unfold Rabs in Hs. destruct (Rcase_abs _) in Hs; lra. }
    clear Hs Hat. induction p as [|x rest IH]; simpl in *; [lra|].
    destruct (Rlt_dec 0 x); [lia|].
    apply -> Nat.succ_lt_mono. apply IH. lra.
Defined.

#[export] Instance first_fit_support : SupportSource first_fit.
Proof.
  intros g p [_ [_ Hs]]. cbn [fst weighted_position first_fit_source].
  assert (Hat : (atol < 1)%R).
  { unfold atol. assert (1 < 2 ^ 26)%R by lra.
    rewrite <- Rinv_1. apply Rinv_lt_contravar; lra. }
  assert (Hpos : (0 < Np.sum p)%R).
  { unfold Rabs in Hs. destruct (Rcase_abs _) in Hs; lra. }
  clear Hs Hat. induction p as [|x rest IH]; simpl in *; [lra|].
  destruct (Rlt_dec 0 x); [assumption|]. apply IH. lra.
Qed.

(** ** The range on which float64 and the real numbers agree *)

(** The properties below are proved on real numbers. They are stated on the
    inputs on which float64 decides the same way which weights are zero and
    whether the sampler accepts the normalised weights: [np.exp(-700)] is
    still a normal double, so with the decay rate 0.1 no weight of the first
    7000 ranks underflows, and with a chance of at least [2^-20] neither does
    its product with such a weight. Module [F64] shows what happens outside. *)

(** No user has more than 7000 candidates. *)
Definition within_rank_limit (recommendations : Recommendations) : Prop :=
  forall u, (Z.of_nat (length (Pd.loc_user recommendations u)) <= 7000)%Z.


(** ** The rank-based model on float64 *)

(** The weighting and the rank-based model once more, on binary64 numbers
    with their own operations: what the code computes where float64 leaves
    the real numbers. [np.exp] is an interface; all that is used of it is
    that it returns 0.0 below -746 (the smallest positive double is
    [2^-1074], about [exp(-744.4)]). *)
Module F64.

Import PrimFloat.
Local Open Scope float_scope.

Class Exp : Type := {
  np_exp : float -> float;
  np_exp_underflow : forall x, leb x (-746) = true -> np_exp x = 0
}.

(** [x * x], [k] times over *)
Fixpoint square_times (k : nat) (x : float) : float :=
  match k with
  | O => x
  | S k' => square_times k' (x * x)
  end.

(** An exponential with that underflow: [(1 + x / 2^30) ^ (2^30)]. *)
Definition exp_by_squaring (x : float) : float :=
  if leb x (-746) then 0 else square_times 30 (1 + x / 0x1p30).

Definition exp_by_squaring_Exp : Exp.
Proof.
  refine {| np_exp := exp_by_squaring |}.
  intros x Hx. unfold exp_by_squaring. now rewrite Hx.
Defined.

(** The literal [0.1] of the source: the double nearest to it *)
Definition default_alpha : float := 0x1.999999999999ap-4.

(** A Python integer [0 <= p < 2^53] as a double *)
Definition of_int (p : Z) : float := of_uint63 (Uint63.of_Z p).

(** Source lines 6-7 *)
Definition ranked_prob `{Exp} (p : Z) (alpha : float) : float :=
  np_exp (- alpha * of_int p).

(** [np.sum]: the entries added from left to right, starting from -0.0
    (numpy adds longer arrays pairwise; the arrays summed below have one
    entry, for which the order plays no part) *)
Definition sum (a : list float) : float := fold_left add a (-0).

(** Source lines 46-48 *)
Definition rank_based_p_list `{Exp} (n : nat) (alpha : float) : list float :=
  let p_list := map (fun i => ranked_prob i alpha) (Np.range 1 (Z.of_nat n + 1)) in
  map (fun x => x / sum p_list) p_list.

(** The compensated sum [np.random.choice] takes of [p] *)
Fixpoint kahan_loop (rest : list float) (acc c : float) : float :=
  match rest with
  | [] => acc
  | x :: rest' =>
      let y := x - c in
      let t := acc + y in
      kahan_loop rest' t ((t - acc) - y)
  end.

Definition kahan_sum (p : list float) : float :=
  match p with
  | [] => 0
  | x :: rest => kahan_loop rest x 0
  end.

(** [sqrt(eps)] *)
Definition atol : float := 0x1p-26.

(** [np.random.choice(range(0, n), p=p)] with the checks it makes on [p];
    [draw] is the generator's weighted draw *)
Definition np_random_choice {G : Type} (draw : G -> list float -> nat * G)
  (g : G) (n : nat) (p : list float) : result (nat * G) :=
  if Nat.eqb n 0 then Raise ValueError
  else if negb (Nat.eqb (length p) n) then Raise ValueError
  else
    let p_sum := kahan_sum p in
    if is_nan p_sum then Raise ValueError
    else if existsb (fun x => ltb x 0) p then Raise ValueError
    else if ltb atol (abs (p_sum - 1)) then Raise ValueError
    else Ok (draw g p).

(** Source lines 43-52 *)
Definition choice_model_rank_based_body {G : Type} `{Exp}
  (draw : G -> list float -> nat * G) (recommendations : Recommendations)
  (alpha : float) (g : G) (u : Z) : result (option row * G) :=
  let recs := Pd.loc_user recommendations u in
  let p_list := rank_based_p_list (length recs) alpha in
  c <- np_random_choice draw g (length recs) p_list ;;
  r <- Pd.iloc recs (Z.of_nat (fst c)) ;;
  Ok (Some {| user_id := u; item_id := item_id r |}, snd c).

Definition choice_model_rank_based {G : Type} `{Exp}
  (draw : G -> list float -> nat * G) (g : G)
  (recommendations : Recommendations) (alpha : float) : result (list row * G) :=
  for_each_user (choice_model_rank_based_body draw recommendations alpha)
                (Pd.unique (map user_id recommendations)) g [].

(** The draw of a generator that counts its draws. *)
Definition counter_draw (g : nat) (p : list float) : nat * nat :=
  (Nat.modulo g (length p), S g).

End F64.

(** * Properties *)

Open Scope R_scope.

(** ** Runs on small inputs *)

Example unique_keeps_first_appearance :
  Pd.unique [3; 1; 3; 2; 1]%Z = [3; 1; 2]%Z.
Proof. reflexivity. Qed.

Example iloc_counts_from_the_end :
  Pd.iloc [10; 20; 30]%Z (-1) = Ok 30%Z /\ Pd.iloc [10; 20; 30]%Z 3 = Raise IndexError.
Proof. split; reflexivity. Qed.

(** User 7 with the candidates 3, 9, 2: the weights before normalisation. *)
Example ranked_p_list_three :
  ranked_p_list (length [3; 9; 2]%Z) (1 / 10)
  = [exp (- (1 / 10) * 1); exp (- (1 / 10) * 2); exp (- (1 / 10) * 3)].
Proof. reflexivity. Qed.

(** The random model on the counter source started at 0: user 1 draws
    position 0 of two candidates, user 2 position 0 of one. *)
Example choice_model_random_run :
  choice_model_random 0%nat
    [{| user_id := 1; item_id := 10 |}; {| user_id := 2; item_id := 20 |};
     {| user_id := 1; item_id := 11 |}]
  = Ok ([{| user_id := 1; item_id := 10 |}; {| user_id := 2; item_id := 20 |}], 2%nat).
Proof. reflexivity. Qed.

(** A control country that is the empty string is no control country. *)
Example prefilter_empty_control :
  truthy (Some "") = false /\ truthy None = false /\ truthy (Some "US") = true.
Proof. repeat split. Qed.

(** ** Facts on sums, ranges and weights *)

Lemma range_length lo hi : length (Np.range lo hi) = Z.to_nat (hi - lo).
Proof. unfold Np.range. now rewrite length_map, length_seq. Qed.

Lemma ranked_p_list_length n alpha : length (ranked_p_list n alpha) = n.
Proof. unfold ranked_p_list. rewrite length_map, range_length. lia. Qed.

Lemma ranked_prob_pos p alpha : 0 < ranked_prob p alpha.
Proof. apply exp_pos. Qed.

Lemma ranked_p_list_pos n alpha : Forall (fun w => 0 < w) (ranked_p_list n alpha).
Proof.
  unfold ranked_p_list. apply Forall_forall. intros w Hw.
  apply in_map_iff in Hw. destruct Hw as [i [<- _]]. apply ranked_prob_pos.
Qed.

Lemma sum_nonneg a : Forall (fun w => 0 <= w) a -> 0 <= Np.sum a.
Proof.
  induction 1 as [|x t Hx _ IH]; simpl; lra.
Qed.

Lemma sum_pos a : a <> [] -> Forall (fun w => 0 < w) a -> 0 < Np.sum a.
Proof.
  intros Hne Hall. destruct Hall as [|x t Hx Ht]; [congruence|].
  simpl. assert (0 <= Np.sum t).
  { apply sum_nonneg. eapply Forall_impl; [|exact Ht]. simpl. intros; lra. }
  lra.
Qed.

Lemma sum_div a s : Np.sum (Np.div a s) = Np.sum a / s.
Proof.
  induction a as [|x t IH]; simpl.
  - unfold Rdiv. now rewrite Rmult_0_l.
  - rewrite IH. unfold Rdiv. ring.
Qed.

Lemma div_length a s : length (Np.div a s) = length a.
Proof. apply length_map. Qed.

Lemma sum_normalised a : Np.sum a <> 0 -> Np.sum (Np.div a (Np.sum a)) = 1.
Proof. intros H. rewrite sum_div. now field. Qed.

Lemma ranked_p_list_sum_pos n alpha : (1 <= n)%nat -> 0 < Np.sum (ranked_p_list n alpha).
Proof.
  intros Hn. apply sum_pos; [|apply ranked_p_list_pos].
  intros E. apply (f_equal (@length R)) in E.
  rewrite ranked_p_list_length in E. simpl in E. lia.
Qed.

(** ** Where float64 leaves the real numbers *)

Module F64Facts.

Import PrimFloat.
Local Open Scope float_scope.

Lemma ranked_prob_underflows `{F64.Exp} :
  F64.ranked_prob 8000 F64.default_alpha = 0 /\ F64.ranked_prob 8001 F64.default_alpha = 0 /\
  F64.ranked_prob 1 800 = 0.
Proof.
  unfold F64.ranked_prob. repeat split; apply F64.np_exp_underflow; reflexivity.
Qed.

(** With the decay rate 0.1 of the country-centric model the weight of rank
    7460 is 0.0 on float64, whatever the class of the candidate: the limit
    of 7000 candidates in [within_rank_limit] stays clear of it. *)
Lemma rank_weight_underflows `{F64.Exp} :
  F64.ranked_prob 7460 F64.default_alpha = 0.
Proof. unfold F64.ranked_prob. apply F64.np_exp_underflow. reflexivity. Qed.

(** C8 (as stated, fails): on float64 the weight is not strictly decreasing
    in the rank. With the decay rate 0.1 the products [-0.1 * 8000] and
    [-0.1 * 8001] are both below -746, where [np.exp] returns 0.0: whatever
    exponential with that underflow is used, rank 8001 does not weigh less
    than rank 8000. *)
Lemma ranked_prob_not_strict_on_float64 :
  ~ (exists E : F64.Exp,
        ltb (F64.ranked_prob 8001 F64.default_alpha) (F64.ranked_prob 8000 F64.default_alpha) = true).
Proof.
  intros [E Hlt].
  destruct (@ranked_prob_underflows E) as [E0 [E1 _]].
  rewrite E0, E1 in Hlt. discriminate Hlt.
Qed.

Lemma rank_based_p_list_nan `{F64.Exp} : F64.rank_based_p_list 1 800 = [nan].
Proof.
  unfold F64.rank_based_p_list.
  change (Np.range 1 (Z.of_nat 1 + 1)) with [1%Z]. cbn [map].
  destruct ranked_prob_underflows as [_ [_ E]]. rewrite E. reflexivity.
Qed.

(** C7 (as stated, fails): for one candidate and the decay rate 800 the
    only weight is [np.exp(-800) = 0.0], the sum of the weights is 0.0 and
    the normalised vector is [[0.0 / 0.0]], not a number: its sum is not
    within the tolerance of 1, whatever exponential with float64's underflow
    is used. *)
Lemma rank_based_p_list_not_normalised_on_float64 :
  ~ (exists E : F64.Exp,
        leb (abs (F64.sum (F64.rank_based_p_list 1 800) - 1)) F64.atol = true).
Proof.
  intros [E Hsum]. rewrite (@rank_based_p_list_nan E) in Hsum. discriminate Hsum.
Qed.

Lemma choice_model_rank_based_value_error `{F64.Exp} (g : nat) :
  F64.choice_model_rank_based F64.counter_draw g
    [{| user_id := 1; item_id := 10 |}] 800
  = Raise ValueError.
Proof.
  unfold F64.choice_model_rank_based.
  change (Pd.unique (map user_id [{| user_id := 1; item_id := 10 |}])) with [1%Z].
  cbn [for_each_user]. unfold F64.choice_model_rank_based_body.
  change (Pd.loc_user [{| user_id := 1; item_id := 10 |}] 1)
    with [{| user_id := 1; item_id := 10 |}].
  cbv zeta. cbn [length]. rewrite rank_based_p_list_nan. reflexivity.
Qed.

(** C9 (as stated, fails): called with the decay rate 800 on the batch of
    the one row (user 1, item 10), the rank-based model returns no table:
    the normalised vector is not a number and [np.random.choice] raises
    [ValueError], so user 1 is in no output row. *)
Lemma choice_model_rank_based_raises_on_float64 :
  ~ (exists (E : F64.Exp) (acc : list row) (g' : nat),
        F64.choice_model_rank_based F64.counter_draw 0%nat
          [{| user_id := 1; item_id := 10 |}] 800
        = Ok (acc, g')).
Proof.
  intros [E [acc [g' Hok]]].
  rewrite (@choice_model_rank_based_value_error E) in Hok. discriminate Hok.
Qed.

End F64Facts.

(** ** Claims on the weighting and on the rank-based distribution *)

(** C8 (amended): [ranked_prob p alpha] is [exp (- alpha * p)]; for a fixed
    [alpha > 0] it never increases from a rank [p >= 1] to the next, and it
    strictly decreases as long as [alpha] is at least [2^-30] and
    [alpha * (p + 1)] at most 700, where float64 still tells the two weights
    apart; for [alpha = 0] it is 1 at every rank. *)
Theorem ranked_prob_decay :
  (forall p alpha, ranked_prob p alpha = exp (- (alpha * IZR p))) /\
  (forall alpha p, 0 < alpha -> (1 <= p)%Z ->
     ranked_prob (p + 1) alpha <= ranked_prob p alpha) /\
  (forall alpha p, / 2 ^ 30 <= alpha -> (1 <= p)%Z -> alpha * IZR (p + 1) <= 700 ->
     ranked_prob (p + 1) alpha < ranked_prob p alpha) /\
  (forall p, ranked_prob p 0 = 1).
Proof.
  assert (Hstrict : forall alpha p, 0 < alpha ->
            ranked_prob (p + 1) alpha < ranked_prob p alpha).
  { intros alpha p Ha. unfold ranked_prob. apply exp_increasing.
    rewrite plus_IZR. nra. }
  split; [|split; [|split]].
  - intros p alpha. unfold ranked_prob. f_equal. ring.
  - intros alpha p Ha _. left. now apply Hstrict.
  - intros alpha p Ha _ _. apply Hstrict.
    assert (0 < / 2 ^ 30) by (apply Rinv_0_lt_compat; lra). lra.
  - intros p. unfold ranked_prob.
    replace (- 0 * IZR p) with 0 by ring. apply exp_0.
Qed.

Lemma ranked_prob_decay_witness :
  ranked_prob (1 + 1) 1 <= ranked_prob 1 1 /\ ranked_prob (1 + 1) 1 < ranked_prob 1 1.
Proof.
  split.
  - apply (proj1 (proj2 ranked_prob_decay) 1 1%Z); [lra | lia].
  - apply (proj1 (proj2 (proj2 ranked_prob_decay)) 1 1%Z); [|lia|].
    + assert (1 <= 2 ^ 30) by lra. rewrite <- Rinv_1.
      apply Rinv_le_contravar; lra.
    + change (1 + 1)%Z with 2%Z. lra.
Defined.

(** C7 (amended): for a user with [N >= 1] candidates and a decay rate
    between 0 and 700, the normalised rank-based vector has one entry per
    candidate, no entry is negative, and the entries, each a weight divided
    by the sum of the weights, add up to 1 within the tolerance of the
    sampler, which accepts the vector; with a single candidate the vector is
    [[1]], so that candidate is drawn with probability 1. *)
Theorem rank_based_p_list_sums_to_one (N : nat) (alpha : R) :
  (1 <= N)%nat -> 0 <= alpha <= 700 ->
  length (rank_based_p_list N alpha) = N /\
  Rabs (Np.sum (rank_based_p_list N alpha) - 1) <= atol /\
  valid_probabilities (rank_based_p_list N alpha) /\
  (N = 1%nat -> rank_based_p_list N alpha = [1]).
Proof.
  intros HN _.
  pose proof (ranked_p_list_sum_pos N alpha HN) as Hs.
  assert (Hlen : length (rank_based_p_list N alpha) = N).
  { unfold rank_based_p_list. cbv zeta. now rewrite div_length, ranked_p_list_length. }
  assert (Hsum : Rabs (Np.sum (rank_based_p_list N alpha) - 1) <= atol).
  { unfold rank_based_p_list. cbv zeta. rewrite sum_normalised by lra.
    replace (1 - 1) with 0 by ring. rewrite Rabs_R0.
    unfold atol. left. apply Rinv_0_lt_compat. apply pow_lt. lra. }
  split; [exact Hlen|]. split; [exact Hsum|]. split.
  - repeat split; [| |exact Hsum].
    + intros E. rewrite E in Hlen. simpl in Hlen. lia.
    + unfold rank_based_p_list. cbv zeta. unfold Np.div.
      apply Forall_forall. intros x Hx. apply in_map_iff in Hx.
      destruct Hx as [w [<- Hw]].
      pose proof (ranked_p_list_pos N alpha) as Hpos.
      rewrite Forall_forall in Hpos. specialize (Hpos w Hw).
      apply Rmult_le_pos; [lra|]. left. now apply Rinv_0_lt_compat.
  - intros ->. unfold rank_based_p_list, ranked_p_list, Np.range. simpl.
    pose proof (ranked_prob_pos 1 alpha) as Hp.
    f_equal. field. lra.
Qed.

Lemma rank_based_p_list_sums_to_one_witness :
  length (rank_based_p_list 3 (1 / 10)) = 3%nat /\
  Rabs (Np.sum (rank_based_p_list 3 (1 / 10)) - 1) <= atol /\
  valid_probabilities (rank_based_p_list 3 (1 / 10)) /\
  (3%nat = 1%nat -> rank_based_p_list 3 (1 / 10) = [1]).
Proof.
  apply (rank_based_p_list_sums_to_one 3 (1 / 10)); [lia | lra].
Defined.

(** ** The prefilter *)

Lemma isin_labels_int z demographics :
  Pd.isin (SInt z) (Pd.labels demographics) = false.
Proof. reflexivity. Qed.

(** The prefilter never removes a row: the "frozen users" it builds are the
    column labels of the demographics table, and no user id is a label. *)
Lemma prefilter_recommendations_identity recommendations demographics tracks control_country :
  prefilter_recommendations recommendations demographics tracks control_country
  = recommendations.
Proof.
  unfold prefilter_recommendations.
  destruct control_country as [c|]; [|reflexivity].
  destruct (truthy (Some c)); [|reflexivity].
  induction recommendations as [|r t IH]; [reflexivity|].
  cbn [filter]. rewrite isin_labels_int. cbn [negb]. now f_equal.
Qed.

(** C1 (fails on the code): with the batch [[(user 1, item 10)]], user 1 in
    the demographics with country US, and control country US, user 1 is a
    control-country user and the documented prefilter returns no row, but the
    code returns the batch unchanged, row of user 1 included. *)
Theorem prefilter_recommendations_keeps_control_user :
  let recommendations := [{| user_id := 1; item_id := 10 |}] in
  let demographics := [{| demo_user_id := 1; demo_country := "US" |}] in
  In 1%Z (control_users demographics "US") /\
  prefilter_documented recommendations demographics "US" = [] /\
  prefilter_recommendations recommendations demographics [] (Some "US")
  = [{| user_id := 1; item_id := 10 |}].
Proof.
  cbv zeta. split; [|split].
  - simpl. now left.
  - reflexivity.
  - reflexivity.
Qed.

(** ** The decay rate of the country-centric model *)

Lemma country_centric_weights_alpha tracks items country ncc invert alpha alpha' :
  country_centric_weights tracks items country ncc invert alpha
  = country_centric_weights tracks items country ncc invert alpha'.
Proof. reflexivity. Qed.

Lemma ranked_prob_inj p alpha alpha' :
  p <> 0%Z -> ranked_prob p alpha = ranked_prob p alpha' -> alpha = alpha'.
Proof.
  unfold ranked_prob. intros Hp E. apply exp_inv in E.
  assert (IZR p <> 0) by (now apply not_0_IZR). nra.
Qed.

(** C2 (fails on the code): called with [alpha = 0.5] for a user whose one
    candidate is a US track, [country_centric] gives the candidate at rank 1
    the weight [exp(-0.1 * 1) * 1], the weight of the decay rate 0.1, which
    is not the weight [exp(-0.5 * 1) * 1] of the decay rate it was given. *)
Theorem country_centric_weights_ignore_alpha :
  let tracks := [{| track_item_id := 0; track_country := "US" |}] in
  country_centric_weights tracks [0%Z] "US" 0 false (1 / 2)
  = Ok [ranked_prob 1 (1 / 10) * 1] /\
  ranked_prob 1 (1 / 10) * 1 <> ranked_prob 1 (1 / 2) * 1.
Proof.
  cbv zeta. split.
  - reflexivity.
  - intros E. assert (E' : ranked_prob 1 (1 / 10) = ranked_prob 1 (1 / 2)) by lra.
    apply ranked_prob_inj in E'; [lra | lia].
Qed.

(** ** Positional lookup in the tracks table *)

Lemma iloc_in_range {A : Type} (rows : list A) (i : Z) :
  (- Z.of_nat (length rows) <= i < Z.of_nat (length rows))%Z ->
  exists r, Pd.iloc rows i = Ok r /\
            nth_error rows (Z.to_nat (i mod Z.of_nat (length rows))) = Some r.
Proof.
  intros Hi. unfold Pd.iloc. cbv zeta.
  set (n := Z.of_nat (length rows)) in *.
  assert (Hpos : (if (i <? 0)%Z then (n + i)%Z else i) = (i mod n)%Z).
  { destruct (Z.ltb_spec i 0).
    - apply Z.mod_unique with (q := (-1)%Z); lia.
    - symmetry. apply Z.mod_small. lia. }
  rewrite Hpos.
  assert (Hm : (0 <= i mod n < n)%Z) by (apply Z.mod_pos_bound; lia).
  replace ((0 <=? i mod n)%Z && (i mod n <? n)%Z) with true
    by (symmetry; apply andb_true_iff; split; [apply Z.leb_le | apply Z.ltb_lt]; lia).
  destruct (nth_error rows (Z.to_nat (i mod n))) as [r|] eqn:E.
  - now exists r.
  - apply nth_error_None in E. subst n. lia.
Qed.

Lemma iloc_out_of_range {A : Type} (rows : list A) (i : Z) :
  ~ (- Z.of_nat (length rows) <= i < Z.of_nat (length rows))%Z ->
  Pd.iloc rows i = Raise IndexError.
Proof.
  intros Hi. unfold Pd.iloc. cbv zeta.
  set (n := Z.of_nat (length rows)) in *.
  destruct (Z.ltb_spec i 0).
  - replace ((0 <=? n + i)%Z && (n + i <? n)%Z) with false; [reflexivity|].
    symmetry. apply andb_false_iff. left. apply Z.leb_gt. lia.
  - replace ((0 <=? i)%Z && (i <? n)%Z) with false; [reflexivity|].
    symmetry. apply andb_false_iff. right. apply Z.ltb_ge. lia.
Qed.

Lemma iloc_raises_index_error {A : Type} (rows : list A) (i : Z) e :
  Pd.iloc rows i = Raise e -> e = IndexError.
Proof.
  unfold Pd.iloc. cbv zeta.
  destruct (_ && _); [destruct (nth_error _ _)|]; congruence.
Qed.

Lemma iloc_list_in_range {A : Type} (rows : list A) (positions : list Z) :
  Forall (fun i => - Z.of_nat (length rows) <= i < Z.of_nat (length rows))%Z positions ->
  exists rs, Pd.iloc_list rows positions = Ok rs /\
             map (@Some A) rs
             = map (fun i => nth_error rows (Z.to_nat (i mod Z.of_nat (length rows))))
                   positions.
Proof.
  induction 1 as [|i rest Hi _ [rs [E Em]]].
  - now exists [].
  - destruct (iloc_in_range rows i Hi) as [r [Er En]].
    exists (r :: rs). simpl. rewrite Er. simpl. rewrite E. simpl.
    split; [reflexivity|]. now rewrite En, Em.
Qed.

Lemma iloc_list_out_of_range {A : Type} (rows : list A) (positions : list Z) :
  Exists (fun i => ~ (- Z.of_nat (length rows) <= i < Z.of_nat (length rows))%Z) positions ->
  Pd.iloc_list rows positions = Raise IndexError.
Proof.
  induction 1 as [i rest Hi | i rest _ IH]; simpl.
  - now rewrite (iloc_out_of_range rows i Hi).
  - destruct (Pd.iloc rows i) as [r|e] eqn:E; simpl.
    + now rewrite IH.
    + now rewrite (iloc_raises_index_error _ _ _ E).
Qed.

Lemma iloc_list_length {A : Type} (rows : list A) (positions : list Z) rs :
  Pd.iloc_list rows positions = Ok rs -> length rs = length positions.
Proof.
  revert rs. induction positions as [|i rest IH]; simpl; intros rs E.
  - now inversion E.
  - destruct (Pd.iloc rows i); simpl in E; [|discriminate].
    destruct (Pd.iloc_list rows rest); simpl in E; [|discriminate].
    inversion E. simpl. f_equal. now apply IH.
Qed.

(** When every row of the tracks table is keyed by its own position, the
    lookup by key and the lookup by position agree on the positions of the
    table. *)
Lemma loc_track_aligned_from (tracks : Tracks) (base : Z) (j : nat) :
  (forall p t, nth_error tracks p = Some t -> track_item_id t = (base + Z.of_nat p)%Z) ->
  (j < length tracks)%nat ->
  Pd.loc_track tracks (base + Z.of_nat j) = nth_error tracks j.
Proof.
  revert base j. induction tracks as [|t0 rest IH]; intros base j Hkey Hj; simpl in Hj.
  - lia.
  - unfold Pd.loc_track. cbn [find].
    pose proof (Hkey 0%nat t0 eq_refl) as H0. simpl in H0.
    destruct j as [|j].
    + replace (base + Z.of_nat 0)%Z with (track_item_id t0) by (rewrite H0; simpl; lia).
      now rewrite Z.eqb_refl.
    + replace (track_item_id t0 =? base + Z.of_nat (S j))%Z with false
        by (symmetry; apply Z.eqb_neq; lia).
      replace (base + Z.of_nat (S j))%Z with ((base + 1) + Z.of_nat j)%Z by lia.
      cbn [nth_error]. apply IH; [|lia].
      intros p t Hp. rewrite (Hkey (S p) t Hp). lia.
Qed.

Lemma loc_track_aligned (tracks : Tracks) (i : Z) :
  (forall p t, nth_error tracks p = Some t -> track_item_id t = Z.of_nat p) ->
  (0 <= i < Z.of_nat (length tracks))%Z ->
  Pd.loc_track tracks i = nth_error tracks (Z.to_nat (i mod Z.of_nat (length tracks))).
Proof.
  intros Hkey Hi. rewrite Z.mod_small by lia.
  replace i with (0 + Z.of_nat (Z.to_nat i))%Z at 1 by lia.
  apply loc_track_aligned_from; [|lia].
  intros p t Hp. rewrite (Hkey p t Hp). lia.
Qed.

(** C3 (as stated, fails): the flag of a candidate is not decided by the
    track whose key is the candidate's item id. In the table with the rows
    (key 1, US), (key 0, DE), candidate 0 is flagged as a US track, though
    the track with key 0 is from DE. *)
Lemma from_country_flags_not_by_key :
  ~ (forall tracks item country flag,
       from_country_flags tracks [item] country = Ok [flag] ->
       (flag = true <->
        exists t, Pd.loc_track tracks item = Some t /\ track_country t = country)).
Proof.
  intros Hclaim.
  specialize (Hclaim [{| track_item_id := 1; track_country := "US" |};
                      {| track_item_id := 0; track_country := "DE" |}]
                     0%Z "US" true eq_refl).
  destruct Hclaim as [Hk _]. destruct (Hk eq_refl) as [t [Ht Hc]].
  simpl in Ht. inversion Ht. subst t. discriminate Hc.
Qed.

(** C3 (amended): a candidate is flagged as a target-country track exactly
    when the row of the tracks table at row position [item_id] (0-based,
    counted from the end when negative) has the target country; when some
    candidate's [item_id] is not a row position of the table the lookup
    raises [IndexError]. Row keys play no part. *)
Theorem from_country_flags_by_position (tracks : Tracks) (items : list Z) (country : string) :
  let n := Z.of_nat (length tracks) in
  (Forall (fun i => - n <= i < n)%Z items ->
   from_country_flags tracks items country
   = Ok (map (fun i => match nth_error tracks (Z.to_nat (i mod n)) with
                       | Some t => String.eqb (track_country t) country
                       | None => false
                       end) items)) /\
  (Exists (fun i => ~ (- n <= i < n)%Z) items ->
   from_country_flags tracks items country = Raise IndexError).
Proof.
  cbv zeta. split; intros Hi; unfold from_country_flags.
  - destruct (iloc_list_in_range tracks items Hi) as [rs [E Em]].
    rewrite E. simpl. f_equal.
    clear E Hi. revert rs Em. induction items as [|i rest IH]; intros [|r rs] Em;
      cbn [map] in *; try discriminate; [reflexivity|].
    injection Em as E1 E2. rewrite <- E1. f_equal. now apply IH.
  - now rewrite (iloc_list_out_of_range tracks items Hi).
Qed.

Lemma from_country_flags_by_position_witness :
  from_country_flags [{| track_item_id := 1; track_country := "US" |};
                      {| track_item_id := 0; track_country := "DE" |}]
                     [0%Z; (-1)%Z] "US"
  = Ok [true; false].
Proof.
  apply (proj1 (from_country_flags_by_position
                  [{| track_item_id := 1; track_country := "US" |};
                   {| track_item_id := 0; track_country := "DE" |}]
                  [0%Z; (-1)%Z] "US")).
  repeat constructor; simpl; lia.
Defined.

(** ** The users of a batch *)

Lemma existsb_eqb_In x seen : existsb (Z.eqb x) seen = true <-> In x seen.
Proof.
  rewrite existsb_exists. split.
  - intros [y [Hy E]]. apply Z.eqb_eq in E. now subst.
  - intros Hx. exists x. split; [assumption | apply Z.eqb_refl].
Qed.

Lemma unique_from_In seen values x :
  In x (Pd.unique_from seen values) <-> In x values /\ ~ In x seen.
Proof.
  revert seen. induction values as [|v rest IH]; intros seen; simpl.
  - tauto.
  - destruct (existsb (Z.eqb v) seen) eqn:E.
    + apply existsb_eqb_In in E. rewrite IH. split.
      * tauto.
      * intros [[->|Hx] Hn]; tauto.
    + assert (Hv : ~ In v seen).
      { intros Hv. apply existsb_eqb_In in Hv. congruence. }
      simpl. rewrite IH. simpl. split.
      * intros [->|[Hx Hn]]; tauto.
      * intros [[->|Hx] Hn]; [tauto|].
        destruct (Z.eq_dec v x); [tauto|]. right. tauto.
Qed.

Lemma unique_from_NoDup seen values : NoDup (Pd.unique_from seen values).
Proof.
  revert seen. induction values as [|v rest IH]; intros seen; simpl.
  - constructor.
  - destruct (existsb (Z.eqb v) seen); [apply IH|].
    constructor; [|apply IH].
    rewrite unique_from_In. simpl. tauto.
Qed.

Lemma unique_In values x : In x (Pd.unique values) <-> In x values.
Proof. unfold Pd.unique. rewrite unique_from_In. simpl. tauto. Qed.

Lemma unique_count values u :
  count_occ Z.eq_dec (Pd.unique values) u = if in_dec Z.eq_dec u values then 1%nat else 0%nat.
Proof.
  pose proof (unique_from_NoDup [] values) as Hnd. fold (Pd.unique values) in Hnd.
  destruct (in_dec Z.eq_dec u values) as [Hin|Hin].
  - apply NoDup_count_occ'; [assumption | now apply unique_In].
  - apply count_occ_not_In. now rewrite unique_In.
Qed.

Lemma loc_user_In recommendations u r :
  In r (Pd.loc_user recommendations u) <-> In r recommendations /\ user_id r = u.
Proof.
  unfold Pd.loc_user. rewrite filter_In. now rewrite Z.eqb_eq.
Qed.

Lemma loc_user_nonempty recommendations u :
  In u (map user_id recommendations) -> Pd.loc_user recommendations u <> [].
Proof.
  intros Hu E. apply in_map_iff in Hu. destruct Hu as [r [Hr Hin]].
  assert (In r (Pd.loc_user recommendations u)) by (apply loc_user_In; tauto).
  rewrite E in *. contradiction.
Qed.

(** ** The loop over the users *)

Section Loop.

Context {G : Type}.
Variable body : G -> Z -> result (option row * G).
Variable Q : row -> Prop.

Lemma rows_of_user_cons a t u :
  rows_of_user (a :: t) u
  = ((if Z.eq_dec (user_id a) u then 1 else 0) + rows_of_user t u)%nat.
Proof.
  unfold rows_of_user. simpl. now destruct (Z.eq_dec (user_id a) u).
Qed.

(** Whatever the loop returns extends [acc_list] by at most one row per
    user it went through. *)
Lemma for_each_user_partial :
  (forall g u a g1, body g u = Ok (Some a, g1) -> user_id a = u /\ Q a) ->
  forall users g acc out g',
    for_each_user body users g acc = Ok (out, g') ->
    exists new, out = acc ++ new /\ Forall Q new /\
      forall u, (rows_of_user new u <= count_occ Z.eq_dec users u)%nat.
Proof.
  intros Hbody. induction users as [|v rest IH]; intros g acc out g' E; simpl in E.
  - inversion E. exists []. rewrite app_nil_r. repeat split; [constructor|].
    intros u. unfold rows_of_user. simpl. lia.
  - destruct (body g v) as [[o g1]|e] eqn:Eb; simpl in E; [|discriminate].
    destruct o as [a|].
    + destruct (Hbody _ _ _ _ Eb) as [Hu Ha].
      destruct (IH _ _ _ _ E) as [new [-> [HQ Hc]]].
      exists (a :: new). rewrite <- app_assoc. repeat split.
      * now constructor.
      * intros u. rewrite rows_of_user_cons. specialize (Hc u). simpl.
        rewrite Hu. destruct (Z.eq_dec v u); lia.
    + destruct (IH _ _ _ _ E) as [new [-> [HQ Hc]]].
      exists new. repeat split; [assumption|].
      intros u. specialize (Hc u). simpl. destruct (Z.eq_dec v u); lia.
Qed.

Variable skips : Z -> bool.

(** When the body succeeds for every user, appending a row of the user
    unless [skips] holds, the loop succeeds and appends one row for each
    occurrence of each user that is not skipped. *)
Lemma for_each_user_total users :
  (forall u, In u users -> forall g, exists o g1,
      body g u = Ok (o, g1) /\
      match o with
      | None => skips u = true
      | Some a => skips u = false /\ user_id a = u /\ Q a
      end) ->
  forall g acc, exists new g',
    for_each_user body users g acc = Ok (acc ++ new, g') /\ Forall Q new /\
    forall u, rows_of_user new u
              = if skips u then 0%nat else count_occ Z.eq_dec users u.
Proof.
  induction users as [|v rest IH]; intros Hbody g acc.
  - exists [], g. simpl. rewrite app_nil_r. repeat split; [constructor|].
    intros u. now destruct (skips u).
  - destruct (Hbody v (or_introl eq_refl) g) as [o [g1 [Eb Ho]]].
    assert (Hrest : forall u, In u rest -> forall g, exists o g1,
               body g u = Ok (o, g1) /\
               match o with
               | None => skips u = true
               | Some a => skips u = false /\ user_id a = u /\ Q a
               end).
    { intros u Hu. apply Hbody. now right. }
    simpl. rewrite Eb. simpl. destruct o as [a|].
    + destruct Ho as [Hs [Hu Ha]].
      destruct (IH Hrest g1 (acc ++ [a])) as [new [g' [E [HQ Hc]]]].
      exists (a :: new), g'. rewrite <- app_assoc in E. repeat split.
      * exact E.
      * now constructor.
      * intros u. rewrite rows_of_user_cons, Hc, Hu. simpl.
        destruct (Z.eq_dec v u) as [<-|Hvu].
        -- now rewrite Hs.
        -- now destruct (skips u).
    + destruct (IH Hrest g1 acc) as [new [g' [E [HQ Hc]]]].
      exists new, g'. repeat split; [exact E | exact HQ |].
      intros u. rewrite Hc. simpl.
      destruct (Z.eq_dec v u) as [<-|Hvu]; [now rewrite Ho | reflexivity].
Qed.

(** The loop only raises what its body raises. *)
Lemma for_each_user_raises users g acc e :
  for_each_user body users g acc = Raise e ->
  exists g0 u, body g0 u = Raise e.
Proof.
  revert g acc. induction users as [|v rest IH]; intros g acc E; simpl in E.
  - discriminate.
  - destruct (body g v) as [[o g1]|e'] eqn:Eb; simpl in E.
    + destruct o; eapply IH; exact E.
    + inversion E. subst. now exists g, v.
Qed.

End Loop.

(** Two bodies that agree on the users of the loop give the same loop. *)
Lemma for_each_user_ext {G : Type} (body body' : G -> Z -> result (option row * G)) users :
  (forall u, In u users -> forall g, body g u = body' g u) ->
  forall g acc, for_each_user body users g acc = for_each_user body' users g acc.
Proof.
  induction users as [|v rest IH]; intros Hb g acc; [reflexivity|].
  simpl. rewrite (Hb v (or_introl eq_refl) g).
  destruct (body' g v) as [[o g1]|e]; simpl; [|reflexivity].
  destruct o; apply IH; intros u Hu; apply Hb; now right.
Qed.

(** ** Sampling *)

Lemma atol_pos : 0 < atol.
Proof. unfold atol. apply Rinv_0_lt_compat. apply pow_lt. lra. Qed.

Lemma no_negative_entry p :
  Forall (fun x => 0 <= x) p ->
  existsb (fun x => if Rlt_dec x 0 then true else false) p = false.
Proof.
  induction 1 as [|x t Hx _ IH]; simpl; [reflexivity|].
  destruct (Rlt_dec x 0); [lra | exact IH].
Qed.

Lemma negative_entry p x :
  In x p -> x < 0 ->
  existsb (fun x => if Rlt_dec x 0 then true else false) p = true.
Proof.
  intros Hin Hx. apply existsb_exists. exists x. split; [assumption|].
  destruct (Rlt_dec x 0); [reflexivity | lra].
Qed.

Lemma div_nonneg w s :
  Forall (fun x => 0 <= x) w -> 0 < s -> Forall (fun x => 0 <= x) (Np.div w s).
Proof.
  intros Hw Hs. unfold Np.div. apply Forall_forall. intros y Hy.
  apply in_map_iff in Hy. destruct Hy as [x [<- Hx]].
  rewrite Forall_forall in Hw. specialize (Hw x Hx).
  apply Rmult_le_pos; [assumption|]. left. now apply Rinv_0_lt_compat.
Qed.

Lemma iloc_ok_In {A : Type} (rows : list A) i r : Pd.iloc rows i = Ok r -> In r rows.
Proof.
  unfold Pd.iloc. cbv zeta. destruct (_ && _); [|discriminate].
  destruct (nth_error _ _) eqn:E; [|discriminate].
  intros E'. inversion E'. subst. eapply nth_error_In. exact E.
Qed.

Lemma iloc_of_nat {A : Type} (rows : list A) (i : nat) :
  (i < length rows)%nat -> exists r, Pd.iloc rows (Z.of_nat i) = Ok r /\ In r rows.
Proof.
  intros Hi. destruct (iloc_in_range rows (Z.of_nat i)) as [r [E _]]; [lia|].
  exists r. split; [exact E | eapply iloc_ok_In; exact E].
Qed.

Lemma row_eta r u : user_id r = u -> {| user_id := u; item_id := item_id r |} = r.
Proof. destruct r. simpl. now intros ->. Qed.

Lemma rank_based_p_list_valid n alpha :
  (1 <= n)%nat ->
  length (rank_based_p_list n alpha) = n /\
  Forall (fun x => 0 <= x) (rank_based_p_list n alpha) /\
  Np.sum (rank_based_p_list n alpha) = 1.
Proof.
  intros Hn. unfold rank_based_p_list. cbv zeta.
  pose proof (ranked_p_list_sum_pos n alpha Hn) as Hs.
  split; [|split].
  - now rewrite div_length, ranked_p_list_length.
  - apply div_nonneg; [|assumption].
    eapply Forall_impl; [|apply ranked_p_list_pos]. simpl. intros; lra.
  - apply sum_normalised. lra.
Qed.

Section Sampling.

Context {G : Type} `{RandomSource G}.

Lemma np_random_choice_ok (g : G) n p :
  n <> 0%nat -> length p = n -> Forall (fun x => 0 <= x) p -> Np.sum p = 1 ->
  np_random_choice g n p = Ok (weighted_position g p) /\
  (fst (weighted_position g p) < n)%nat.
Proof.
  intros Hn Hlen Hp Hs. unfold np_random_choice.
  replace (Nat.eqb n 0) with false by (symmetry; now apply Nat.eqb_neq).
  replace (Nat.eqb (length p) n) with true by (symmetry; now apply Nat.eqb_eq).
  cbn [negb]. rewrite (no_negative_entry p Hp).
  assert (Ha : Rabs (Np.sum p - 1) = 0).
  { rewrite Hs. replace (1 - 1) with 0 by ring. apply Rabs_R0. }
  pose proof atol_pos as Hat.
  destruct (Rlt_dec atol (Rabs (Np.sum p - 1))) as [Hlt|_]; [lra|].
  split; [reflexivity|]. rewrite <- Hlen. apply weighted_position_lt.
  repeat split.
  - intros ->. simpl in Hlen. congruence.
  - exact Hp.
  - lra.
Qed.


Lemma np_random_choice_raises (g : G) n p e :
  np_random_choice g n p = Raise e -> e = ValueError.
Proof.
  unfold np_random_choice.
  destruct (Nat.eqb n 0); [congruence|].
  destruct (negb _); [congruence|].
  destruct (existsb _ _); [congruence|].
  destruct (Rlt_dec _ _); congruence.
Qed.

(** ** The random and the rank-based model, user by user *)

Lemma choice_model_random_body_ok recommendations (g : G) u :
  In u (map user_id recommendations) ->
  exists a g1, choice_model_random_body recommendations g u = Ok (Some a, g1) /\
               user_id a = u /\ In a recommendations.
Proof.
  intros Hu. unfold choice_model_random_body. cbv zeta.
  pose proof (loc_user_nonempty recommendations u Hu) as Hne.
  unfold sample1. destruct (Pd.loc_user recommendations u) as [|r0 t] eqn:E; [congruence|].
  rewrite <- E. clear Hne.
  assert (Hlen : (0 < length (Pd.loc_user recommendations u))%nat) by (rewrite E; simpl; lia).
  pose proof (uniform_position_lt g _ Hlen) as Hlt.
  destruct (iloc_of_nat _ _ Hlt) as [r [Er Hr]].
  rewrite Er. simpl. apply loc_user_In in Hr. destruct Hr as [Hr Hru].
  eexists. eexists. split; [reflexivity|]. simpl. split; [reflexivity|].
  now rewrite (row_eta r u Hru).
Qed.

Lemma choice_model_rank_based_body_ok recommendations alpha (g : G) u :
  In u (map user_id recommendations) ->
  exists a g1, choice_model_rank_based_body recommendations alpha g u = Ok (Some a, g1) /\
               user_id a = u /\ In a recommendations.
Proof.
  intros Hu. unfold choice_model_rank_based_body. cbv zeta.
  pose proof (loc_user_nonempty recommendations u Hu) as Hne.
  set (recs := Pd.loc_user recommendations u) in *.
  assert (Hlen : (1 <= length recs)%nat).
  { destruct recs; [congruence | simpl; lia]. }
  destruct (rank_based_p_list_valid (length recs) alpha Hlen) as [Hl [Hp Hs]].
  destruct (np_random_choice_ok g (length recs) _ ltac:(lia) Hl Hp Hs) as [Ec Hlt].
  rewrite Ec. simpl.
  destruct (iloc_of_nat _ _ Hlt) as [r [Er Hr]].
  rewrite Er. simpl. apply loc_user_In in Hr. destruct Hr as [Hr Hru].
  eexists. eexists. split; [reflexivity|]. simpl. split; [reflexivity|].
  now rewrite (row_eta r u Hru).
Qed.

Lemma country_centric_body_row recommendations tracks country ncc invert alpha
      (g : G) u a g1 :
  country_centric_body recommendations tracks country ncc invert alpha g u = Ok (Some a, g1) ->
  user_id a = u /\ In a recommendations.
Proof.
  unfold country_centric_body. cbv zeta.
  destruct (country_centric_p_list _ _ _ _ _ _) as [[p|]|e]; simpl; try discriminate.
  destruct (np_random_choice _ _ _) as [c|e]; simpl; [|discriminate].
  destruct (Pd.iloc _ _) as [r|e] eqn:Er; simpl; [|discriminate].
  intros E. inversion E. subst. simpl. split; [reflexivity|].
  apply iloc_ok_In in Er. apply loc_user_In in Er. destruct Er as [Hr Hru].
  now rewrite (row_eta r u Hru).
Qed.

End Sampling.

(** ** One row per user *)

Section OneRowPerUser.

Context {G : Type} `{RandomSource G}.

Lemma always_one_row (body : G -> Z -> result (option row * G)) recommendations :
  (forall g u, In u (map user_id recommendations) ->
     exists a g1, body g u = Ok (Some a, g1) /\ user_id a = u /\ In a recommendations) ->
  forall g, exists acc g',
    for_each_user body (Pd.unique (map user_id recommendations)) g [] = Ok (acc, g') /\
    exactly_one_each recommendations acc.
Proof.
  intros Hbody g.
  destruct (for_each_user_total body (fun a => In a recommendations) (fun _ => false)
              (Pd.unique (map user_id recommendations))) with (g := g) (acc := @nil row)
    as [new [g' [E [HQ Hc]]]].
  { intros u Hu g0. apply (proj1 (unique_In _ _)) in Hu.
    destruct (Hbody g0 u Hu) as [a [g1 [Eb [Ha Hin]]]].
    exists (Some a), g1. tauto. }
  exists new, g'. split; [exact E|].
  repeat split.
  - intros u. rewrite Hc, unique_count. destruct (in_dec _ _ _); lia.
  - exact HQ.
  - intros u Hu. rewrite Hc, unique_count. destruct (in_dec _ _ _); tauto.
Qed.

Lemma at_most_one_row (body : G -> Z -> result (option row * G)) recommendations :
  (forall g u a g1, body g u = Ok (Some a, g1) -> user_id a = u /\ In a recommendations) ->
  forall g acc g',
    for_each_user body (Pd.unique (map user_id recommendations)) g [] = Ok (acc, g') ->
    at_most_one_each recommendations acc.
Proof.
  intros Hbody g acc g' E.
  destruct (for_each_user_partial body (fun a => In a recommendations) Hbody _ _ _ _ _ E)
    as [new [-> [HQ Hc]]].
  simpl. split; [|exact HQ].
  intros u. specialize (Hc u). rewrite unique_count in Hc.
  destruct (in_dec _ _ _); lia.
Qed.

Lemma choice_model_random_total (g : G) recommendations :
  exists acc g', choice_model_random g recommendations = Ok (acc, g') /\
                 exactly_one_each recommendations acc.
Proof.
  apply always_one_row. intros g0 u Hu. now apply choice_model_random_body_ok.
Qed.

Lemma choice_model_rank_based_total (g : G) recommendations alpha :
  exists acc g', choice_model_rank_based g recommendations alpha = Ok (acc, g') /\
                 exactly_one_each recommendations acc.
Proof.
  apply always_one_row. intros g0 u Hu. now apply choice_model_rank_based_body_ok.
Qed.

End OneRowPerUser.

(** ** The country-centric weights *)

Lemma country_p_mod_length fc ncc invert : length (country_p_mod fc ncc invert) = length fc.
Proof. unfold country_p_mod. destruct invert; apply length_map. Qed.

Lemma country_p_mod_nonneg fc ncc invert :
  0 <= ncc -> Forall (fun x => 0 <= x) (country_p_mod fc ncc invert).
Proof.
  intros Hn. unfold country_p_mod. apply Forall_forall. intros x Hx.
  destruct invert; apply in_map_iff in Hx; destruct Hx as [[|] [<- _]]; lra.
Qed.

Lemma country_p_mod_one fc invert : country_p_mod fc 1 invert = map (fun _ => 1) fc.
Proof.
  unfold country_p_mod. destruct invert; apply map_ext; now intros [|].
Qed.

Lemma mul_length a b : length a = length b -> length (Np.mul a b) = length a.
Proof.
  intros E. unfold Np.mul. rewrite length_map, length_combine. lia.
Qed.

Lemma mul_nonneg a b :
  Forall (fun x => 0 <= x) a -> Forall (fun x => 0 <= x) b ->
  Forall (fun x => 0 <= x) (Np.mul a b).
Proof.
  intros Ha Hb. unfold Np.mul. apply Forall_forall. intros x Hx.
  apply in_map_iff in Hx. destruct Hx as [[y z] [<- Hyz]]. simpl.
  rewrite Forall_forall in Ha, Hb.
  apply Rmult_le_pos; [apply Ha; eapply in_combine_l | apply Hb; eapply in_combine_r];
    exact Hyz.
Qed.

Lemma mul_ones {B : Type} a (fc : list B) :
  length fc = length a -> Np.mul a (map (fun _ => 1) fc) = a.
Proof.
  revert fc. induction a as [|x t IH]; intros [|b fc] E; simpl in E; try discriminate.
  - reflexivity.
  - unfold Np.mul in *. simpl. f_equal; [ring|]. apply IH. lia.
Qed.

Lemma fold_Rmax_ge t x : x <= fold_left Rmax t x.
Proof.
  revert x. induction t as [|y t IH]; intros x; simpl; [lra|].
  eapply Rle_trans; [apply (Rmax_l x y) | apply IH].
Qed.

Lemma fold_Rmax_upper t x y : In y t -> y <= fold_left Rmax t x.
Proof.
  revert x. induction t as [|z t IH]; intros x Hy; simpl; [contradiction|].
  destruct Hy as [->|Hy].
  - eapply Rle_trans; [apply (Rmax_r x y) | apply fold_Rmax_ge].
  - now apply IH.
Qed.

Lemma fold_Rmax_In t x : In (fold_left Rmax t x) (x :: t).
Proof.
  revert x. induction t as [|y t IH]; intros x; simpl; [now left|].
  destruct (IH (Rmax x y)) as [E|Hin].
  - rewrite <- E. unfold Rmax. destruct (Rle_dec x y); tauto.
  - tauto.
Qed.

Lemma all_zero_Forall w : all_zero w = true <-> Forall (fun x => x = 0) w.
Proof.
  unfold all_zero. rewrite forallb_forall, Forall_forall.
  split; intros Hw x Hx; specialize (Hw x Hx); destruct (Req_dec_T x 0); congruence.
Qed.

(** The test of line 83 on the weights: on weights that are not negative
    the maximum is 0 exactly when all of them are 0. *)
Lemma max_zero_all_zero w :
  w <> [] -> Forall (fun x => 0 <= x) w ->
  exists m, Np.max w = Ok m /\ (m = 0 <-> all_zero w = true).
Proof.
  intros Hne Hw. destruct w as [|x t]; [congruence|].
  exists (fold_left Rmax t x). split; [reflexivity|].
  rewrite all_zero_Forall, Forall_forall. rewrite Forall_forall in Hw. split.
  - intros Hm y Hy. specialize (Hw y Hy).
    assert (y <= fold_left Rmax t x).
    { destruct Hy as [<-|Hy]; [apply fold_Rmax_ge | now apply fold_Rmax_upper]. }
    lra.
  - intros Hz. apply Hz. apply fold_Rmax_In.
Qed.

Lemma sum_pos_not_all_zero w :
  Forall (fun x => 0 <= x) w -> all_zero w = false -> 0 < Np.sum w.
Proof.
  induction 1 as [|x t Hx Ht IH]; simpl; [discriminate|].
  destruct (Req_dec_T x 0) as [->|Hx0]; simpl.
  - intros Hz. specialize (IH Hz). lra.
  - intros _. pose proof (sum_nonneg t Ht). lra.
Qed.

Lemma positions_valid_user tracks recommendations u :
  positions_valid tracks recommendations ->
  Forall (fun i => - Z.of_nat (length tracks) <= i < Z.of_nat (length tracks))%Z
         (map item_id (Pd.loc_user recommendations u)).
Proof.
  unfold positions_valid. rewrite !Forall_forall. intros Hv i Hi.
  apply in_map_iff in Hi. destruct Hi as [r [<- Hr]].
  apply loc_user_In in Hr. now apply Hv.
Qed.

Lemma from_country_flags_ok tracks items country :
  Forall (fun i => - Z.of_nat (length tracks) <= i < Z.of_nat (length tracks))%Z items ->
  exists fc, from_country_flags tracks items country = Ok fc /\ length fc = length items.
Proof.
  intros Hv. unfold from_country_flags.
  destruct (iloc_list_in_range tracks items Hv) as [rs [E _]].
  rewrite E. simpl. eexists. split; [reflexivity|].
  rewrite length_map. eapply iloc_list_length. exact E.
Qed.

(** The weights of a user whose candidates are all rows of the tracks table,
    and the distribution made from them. *)
Lemma country_centric_p_list_ok tracks items country ncc invert alpha :
  items <> [] -> 0 <= ncc ->
  Forall (fun i => - Z.of_nat (length tracks) <= i < Z.of_nat (length tracks))%Z items ->
  exists w,
    country_centric_weights tracks items country ncc invert alpha = Ok w /\
    length w = length items /\
    Forall (fun x => 0 <= x) w /\
    country_centric_p_list tracks items country ncc invert alpha
    = Ok (if all_zero w then None else Some (Np.div w (Np.sum w))).
Proof.
  intros Hne Hn Hv. unfold country_centric_p_list, country_centric_weights.
  destruct (from_country_flags_ok tracks items country Hv) as [fc [E Hl]].
  rewrite E. simpl.
  set (w := Np.mul _ _).
  assert (Hlen : length w = length items).
  { unfold w. rewrite mul_length; rewrite ranked_p_list_length;
      [reflexivity | now rewrite country_p_mod_length]. }
  assert (Hw : Forall (fun x => 0 <= x) w).
  { apply mul_nonneg; [|now apply country_p_mod_nonneg].
    eapply Forall_impl; [|apply ranked_p_list_pos]. simpl. intros; lra. }
  assert (Hwne : w <> []).
  { intros Ew. rewrite Ew in Hlen. destruct items; [congruence | discriminate]. }
  exists w. repeat split; try assumption.
  destruct (max_zero_all_zero w Hwne Hw) as [m [Em Hm]]. rewrite Em. simpl.
  destruct (Req_dec_T m 0) as [Hz|Hz].
  - now rewrite (proj1 Hm Hz).
  - destruct (all_zero w); [|reflexivity]. now destruct Hz; apply Hm.
Qed.

(** ** The country-centric model, user by user *)

Section CountryCentric.

Context {G : Type} `{RandomSource G}.

Lemma country_centric_body_ok recommendations tracks country ncc invert alpha (g : G) u :
  0 <= ncc -> positions_valid tracks recommendations ->
  In u (map user_id recommendations) ->
  exists w,
    country_centric_weights tracks (map item_id (Pd.loc_user recommendations u))
                            country ncc invert alpha = Ok w /\
    exists o g1,
      country_centric_body recommendations tracks country ncc invert alpha g u = Ok (o, g1) /\
      match o with
      | None => all_zero w = true
      | Some a => all_zero w = false /\ user_id a = u /\ In a recommendations
      end.
Proof.
  intros Hn Hv Hu.
  pose proof (loc_user_nonempty recommendations u Hu) as Hne.
  pose proof (positions_valid_user tracks recommendations u Hv) as Hvu.
  unfold country_centric_body. cbv zeta.
  set (recs := Pd.loc_user recommendations u) in *.
  assert (Hitems : map item_id recs <> []).
  { destruct recs; [congruence | discriminate]. }
  destruct (country_centric_p_list_ok tracks (map item_id recs) country ncc invert alpha
              Hitems Hn Hvu) as [w [Ew [Hlen [Hw Ep]]]].
  exists w. split; [exact Ew|]. rewrite Ep. simpl.
  rewrite length_map in Hlen.
  destruct (all_zero w) eqn:Ez.
  - exists None, g. now split.
  - pose proof (sum_pos_not_all_zero w Hw Ez) as Hs.
    destruct (np_random_choice_ok g (length recs) (Np.div w (Np.sum w))) as [Ec Hlt].
    + destruct recs; [congruence | discriminate].
    + now rewrite div_length.
    + now apply div_nonneg.
    + apply sum_normalised. lra.
    + rewrite Ec. simpl.
      destruct (iloc_of_nat _ _ Hlt) as [r [Er Hr]].
      rewrite Er. simpl. apply loc_user_In in Hr. destruct Hr as [Hr Hru].
      eexists. eexists. split; [reflexivity|]. simpl.
      rewrite (row_eta r u Hru). tauto.
Qed.

(** With a chance that is not negative and every item a row position of
    the tracks table, the model returns, with one row for each user whose
    weights are not all zero and none for the others. *)
Lemma country_centric_total (g : G) recommendations tracks country ncc invert alpha :
  0 <= ncc -> positions_valid tracks recommendations ->
  exists acc g',
    country_centric g recommendations tracks country ncc invert alpha = Ok (acc, g') /\
    at_most_one_each recommendations acc /\
    forall u, In u (map user_id recommendations) ->
      exists w,
        country_centric_weights tracks (map item_id (Pd.loc_user recommendations u))
                                country ncc invert alpha = Ok w /\
        rows_of_user acc u = if all_zero w then 0%nat else 1%nat.
Proof.
  intros Hn Hv. unfold country_centric.
  set (skips := fun u =>
         match country_centric_weights tracks (map item_id (Pd.loc_user recommendations u))
                                       country ncc invert alpha with
         | Ok w => all_zero w
         | Raise _ => false
         end).
  destruct (for_each_user_total
              (country_centric_body recommendations tracks country ncc invert alpha)
              (fun a => In a recommendations) skips
              (Pd.unique (map user_id recommendations))) with (g := g) (acc := @nil row)
    as [new [g' [E [HQ Hc]]]].
  { intros u Hu g0. apply (proj1 (unique_In _ _)) in Hu.
    destruct (country_centric_body_ok recommendations tracks country ncc invert alpha g0 u
                Hn Hv Hu) as [w [Ew [o [g1 [Eb Ho]]]]].
    exists o, g1. split; [exact Eb|]. unfold skips. rewrite Ew. exact Ho. }
  exists new, g'. split; [exact E|]. split; [split|].
  - intros u. rewrite Hc, unique_count. destruct (in_dec _ _ _), (skips u); lia.
  - exact HQ.
  - intros u Hu.
    destruct (country_centric_body_ok recommendations tracks country ncc invert alpha g u
                Hn Hv Hu) as [w [Ew _]].
    exists w. split; [exact Ew|]. rewrite Hc, unique_count. unfold skips. rewrite Ew.
    destruct (all_zero w); [reflexivity|]. destruct (in_dec _ _ _); tauto.
Qed.

End CountryCentric.


(** ** Chance 1: no country effect *)

Lemma country_centric_p_list_chance_one tracks items country invert alpha :
  items <> [] ->
  Forall (fun i => - Z.of_nat (length tracks) <= i < Z.of_nat (length tracks))%Z items ->
  country_centric_p_list tracks items country 1 invert alpha
  = Ok (Some (rank_based_p_list (length items) default_alpha)).
Proof.
  intros Hne Hv. unfold country_centric_p_list, country_centric_weights.
  destruct (from_country_flags_ok tracks items country Hv) as [fc [E Hl]].
  rewrite E. cbn [bind].
  rewrite country_p_mod_one, mul_ones by (now rewrite ranked_p_list_length).
  unfold rank_based_p_list, default_alpha. cbv zeta.
  pose proof (ranked_p_list_pos (length items) (1 / 10)) as Hpos.
  pose proof (ranked_p_list_length (length items) (1 / 10)) as Hlen.
  destruct (ranked_p_list (length items) (1 / 10)) as [|x t] eqn:Er.
  - destruct items; [congruence | discriminate].
  - cbn [Np.max bind]. inversion Hpos as [|? ? Hx _]. subst.
    pose proof (fold_Rmax_ge t x).
    destruct (Req_dec_T (fold_left Rmax t x) 0); [lra | reflexivity].
Qed.

(** C6 (as stated, fails): for the batch with the one row (user 1, item 0)
    and an empty tracks table, the rank-based model has a distribution for
    user 1, but the country-centric model with chance 1 has none: its lookup
    of item 0 in the tracks table raises [IndexError]. *)
Lemma country_centric_chance_one_reads_tracks :
  ~ (forall recommendations tracks country invert u,
       In u (map user_id recommendations) ->
       country_centric_p_list tracks (map item_id (Pd.loc_user recommendations u))
                              country 1 invert default_alpha
       = Ok (Some (rank_based_p_list (length (Pd.loc_user recommendations u))
                                     default_alpha))).
Proof.
  intros Hclaim.
  specialize (Hclaim [{| user_id := 1; item_id := 0 |}] [] "US" false 1%Z
                     (or_introl eq_refl)).
  assert (E : country_centric_p_list [] (map item_id (Pd.loc_user [{| user_id := 1; item_id := 0 |}] 1))
                                     "US" 1 false default_alpha = Raise IndexError)
    by reflexivity.
  rewrite E in Hclaim. discriminate Hclaim.
Qed.

(** C6 (amended): for every batch and tracks table in which every item id
    of the batch is a row position of the tracks table, [country_centric]
    with [non_country_chance = 1] and the default decay rate, inverted or
    not, hands the sampler for every user the distribution of the rank-based
    model with its default decay rate, and from the same state of the random
    source the two models return the same result. *)
Theorem country_centric_chance_one_is_rank_based {G : Type} `{RandomSource G} (g : G)
  (recommendations : Recommendations) (tracks : Tracks) (country : string)
  (invert : bool) :
  positions_valid tracks recommendations ->
  (forall u, In u (map user_id recommendations) ->
     country_centric_p_list tracks (map item_id (Pd.loc_user recommendations u))
                            country 1 invert default_alpha
     = Ok (Some (rank_based_p_list (length (Pd.loc_user recommendations u))
                                   default_alpha))) /\
  country_centric g recommendations tracks country 1 invert default_alpha
  = choice_model_rank_based g recommendations default_alpha.
Proof.
  intros Hv.
  assert (Hp : forall u, In u (map user_id recommendations) ->
     country_centric_p_list tracks (map item_id (Pd.loc_user recommendations u))
                            country 1 invert default_alpha
     = Ok (Some (rank_based_p_list (length (Pd.loc_user recommendations u))
                                   default_alpha))).
  { intros u Hu.
    rewrite country_centric_p_list_chance_one.
    - now rewrite length_map.
    - pose proof (loc_user_nonempty recommendations u Hu).
      destruct (Pd.loc_user recommendations u); [congruence | discriminate].
    - now apply positions_valid_user. }
  split; [exact Hp|].
  unfold country_centric, choice_model_rank_based.
  apply for_each_user_ext. intros u Hu g0. apply (proj1 (unique_In _ _)) in Hu.
  unfold country_centric_body, choice_model_rank_based_body. cbv zeta.
  now rewrite (Hp u Hu).
Qed.

Lemma country_centric_chance_one_is_rank_based_witness :
  let tracks := [{| track_item_id := 0; track_country := "US" |};
                 {| track_item_id := 1; track_country := "DE" |}] in
  let batch := [{| user_id := 1; item_id := 0 |}; {| user_id := 1; item_id := 1 |};
                {| user_id := 2; item_id := 1 |}] in
  (forall u, In u (map user_id batch) ->
     country_centric_p_list tracks (map item_id (Pd.loc_user batch u)) "US" 1 true
                            default_alpha
     = Ok (Some (rank_based_p_list (length (Pd.loc_user batch u)) default_alpha))) /\
  country_centric 0%nat batch tracks "US" 1 true default_alpha
  = choice_model_rank_based 0%nat batch default_alpha.
Proof.
  cbv zeta. apply country_centric_chance_one_is_rank_based.
  unfold positions_valid. repeat constructor; simpl; lia.
Defined.

(** ** The output table *)

(** C9 (amended): whatever the batch, the random model returns a table with
    exactly one row for each user of the batch; every table the rank-based
    model returns, for any decay rate, has exactly one row for each user of
    the batch, and for a decay rate between 0 and 700 it returns one; every
    table the country-centric model returns has at most one row per user. In
    all these tables every row is a row of the batch: the item is one of the
    user's own candidates. *)
Theorem one_row_per_user {G : Type} `{RandomSource G} (g : G)
  (recommendations : Recommendations) :
  (exists acc g', choice_model_random g recommendations = Ok (acc, g') /\
                  exactly_one_each recommendations acc) /\
  (forall alpha acc g',
      choice_model_rank_based g recommendations alpha = Ok (acc, g') ->
      exactly_one_each recommendations acc) /\
  (forall alpha, 0 <= alpha <= 700 ->
      exists acc g', choice_model_rank_based g recommendations alpha = Ok (acc, g')) /\
  (forall tracks country non_country_chance invert alpha acc g',
      country_centric g recommendations tracks country non_country_chance invert alpha
      = Ok (acc, g') ->
      at_most_one_each recommendations acc).
Proof.
  split; [|split; [|split]].
  - apply choice_model_random_total.
  - intros alpha acc g' E.
    destruct (choice_model_rank_based_total g recommendations alpha)
      as [acc0 [g0 [E0 Hone]]].
    rewrite E in E0. inversion E0. now subst.
  - intros alpha _.
    destruct (choice_model_rank_based_total g recommendations alpha)
      as [acc0 [g0 [E0 _]]].
    now exists acc0, g0.
  - intros tracks country ncc invert alpha acc g' E.
    eapply at_most_one_row; [|exact E].
    intros g0 u a g1. apply country_centric_body_row.
Qed.

Lemma one_row_per_user_witness :
  let batch := [{| user_id := 1; item_id := 0 |}; {| user_id := 1; item_id := 1 |};
                {| user_id := 2; item_id := 1 |}] in
  exists acc g',
    choice_model_rank_based 0%nat batch (1 / 10) = Ok (acc, g') /\
    exactly_one_each batch acc.
Proof.
  cbv zeta.
  destruct (proj1 (proj2 (proj2 (one_row_per_user 0%nat
              [{| user_id := 1; item_id := 0 |}; {| user_id := 1; item_id := 1 |};
               {| user_id := 2; item_id := 1 |}]))) (1 / 10) ltac:(lra))
    as [acc [g' E]].
  exists acc, g'. split; [exact E|].
  exact (proj1 (proj2 (one_row_per_user 0%nat _)) _ _ _ E).
Defined.

(** ** The dispatcher *)

Lemma iloc_list_raises {A : Type} (rows : list A) positions e :
  Pd.iloc_list rows positions = Raise e -> e = IndexError.
Proof.
  induction positions as [|i rest IH]; simpl; [discriminate|].
  destruct (Pd.iloc rows i) as [r|e'] eqn:Ei; simpl.
  - destruct (Pd.iloc_list rows rest); simpl; [discriminate|].
    intros E. inversion E. subst. now apply IH.
  - intros E. inversion E. subst. eapply iloc_raises_index_error. exact Ei.
Qed.

Lemma country_centric_p_list_raises tracks items country ncc invert alpha e :
  country_centric_p_list tracks items country ncc invert alpha = Raise e -> model_error e.
Proof.
  unfold country_centric_p_list, country_centric_weights, from_country_flags.
  destruct (Pd.iloc_list tracks items) as [rs|e'] eqn:Ei; simpl.
  - destruct (Np.mul _ _); simpl.
    + intros E. inversion E. now right.
    + destruct (Req_dec_T _ _); discriminate.
  - intros E. inversion E. subst. left. eapply iloc_list_raises. exact Ei.
Qed.

Section Dispatcher.

Context {G : Type} `{RandomSource G}.

Lemma choice_model_random_raises (g : G) recommendations e :
  choice_model_random g recommendations = Raise e -> model_error e.
Proof.
  intros E. apply for_each_user_raises in E. destruct E as [g0 [u E]].
  unfold choice_model_random_body, sample1 in E. cbv zeta in E.
  destruct (Pd.loc_user recommendations u) as [|r0 t].
  - simpl in E. inversion E. now right.
  - destruct (Pd.iloc _ _) as [r|e'] eqn:Ei; simpl in E; [discriminate|].
    inversion E. subst. left. eapply iloc_raises_index_error. exact Ei.
Qed.

Lemma choice_model_rank_based_raises (g : G) recommendations alpha e :
  choice_model_rank_based g recommendations alpha = Raise e -> model_error e.
Proof.
  intros E. apply for_each_user_raises in E. destruct E as [g0 [u E]].
  unfold choice_model_rank_based_body in E. cbv zeta in E.
  destruct (np_random_choice _ _ _) as [c|e'] eqn:Ec; simpl in E.
  - destruct (Pd.iloc _ _) as [r|e'] eqn:Ei; simpl in E; [discriminate|].
    inversion E. subst. left. eapply iloc_raises_index_error. exact Ei.
  - inversion E. subst. right. eapply np_random_choice_raises. exact Ec.
Qed.

Lemma country_centric_raises (g : G) recommendations tracks country ncc invert alpha e :
  country_centric g recommendations tracks country ncc invert alpha = Raise e ->
  model_error e.
Proof.
  intros E. apply for_each_user_raises in E. destruct E as [g0 [u E]].
  unfold country_centric_body in E. cbv zeta in E.
  destruct (country_centric_p_list _ _ _ _ _ _) as [[p|]|e'] eqn:Ep; simpl in E.
  - destruct (np_random_choice _ _ _) as [c|e'] eqn:Ec; simpl in E.
    + destruct (Pd.iloc _ _) as [r|e'] eqn:Ei; simpl in E; [discriminate|].
      inversion E. subst. left. eapply iloc_raises_index_error. exact Ei.
    + inversion E. subst. right. eapply np_random_choice_raises. exact Ec.
  - discriminate.
  - inversion E. subst. eapply country_centric_p_list_raises. exact Ep.
Qed.

End Dispatcher.

Lemma model_error_not_unsupported msg : ~ model_error (NotImplementedError msg).
Proof. intros [E|E]; discriminate E. Qed.

Lemma unknown_model_name name :
  ~ In name model_names ->
  String.eqb name "random" = false /\ String.eqb name "rank_based" = false /\
  String.eqb name "us_centric" = false /\ String.eqb name "non_us_centric" = false.
Proof.
  intros Hn. repeat split; apply String.eqb_neq; intros ->; apply Hn; simpl; tauto.
Qed.

(** C5 (as stated, fails): the error for the unknown name [bogus] carries
    the fixed message [Unknown Choice model!], in which [bogus] does not
    occur; and the valid name [us_centric] returns no table for a batch
    whose item 0 is no row position of an empty tracks table, it raises
    [IndexError]. *)
Lemma accept_new_recommendations_message_is_fixed :
  accept_new_recommendations 0%nat "bogus" [{| user_id := 1; item_id := 0 |}] [] [] 10
  = Raise (NotImplementedError "Unknown Choice model!") /\
  contains "bogus" "Unknown Choice model!" = false /\
  accept_new_recommendations 0%nat "us_centric" [{| user_id := 1; item_id := 0 |}] [] [] 10
  = Raise IndexError.
Proof. repeat split; reflexivity. Qed.

(** C5 (amended): called with a name outside
    [random], [rank_based], [us_centric], [non_us_centric], the dispatcher
    raises the unsupported-model error ([NotImplementedError]) with the fixed
    message [Unknown Choice model!] and returns nothing; called with one of
    the four names it never raises that error, and it returns a table of
    [user_id], [item_id] rows, at most one per user, for [random] and
    [rank_based] always and for the two country-centric names whenever every
    item id of the batch is a row position of the tracks table. *)
Theorem accept_new_recommendations_dispatch {G : Type} `{RandomSource G} (g : G)
  (choice_model : string) (recommendations : Recommendations)
  (demographics : Demographics) (tracks : Tracks) (k : Z) :
  (~ In choice_model model_names ->
   accept_new_recommendations g choice_model recommendations demographics tracks k
   = Raise (NotImplementedError "Unknown Choice model!")) /\
  (In choice_model model_names ->
   (forall msg,
      accept_new_recommendations g choice_model recommendations demographics tracks k
      <> Raise (NotImplementedError msg)) /\
   (choice_model = "random" \/ choice_model = "rank_based" \/
    positions_valid tracks recommendations ->
    exists acc g',
      accept_new_recommendations g choice_model recommendations demographics tracks k
      = Ok (acc, g') /\
      at_most_one_each recommendations acc)).
Proof.
  split.
  - intros Hn. destruct (unknown_model_name choice_model Hn) as [E1 [E2 [E3 E4]]].
    unfold accept_new_recommendations. now rewrite E1, E2, E3, E4.
  - intros Hin. simpl in Hin.
    assert (Hzero : 0 <= 0) by lra.
    destruct Hin as [<-|[<-|[<-|[<-|[]]]]]; unfold accept_new_recommendations; simpl; split.
    + intros msg E. apply choice_model_random_raises in E.
      now apply model_error_not_unsupported in E.
    + intros _. destruct (choice_model_random_total g recommendations) as [acc [g' [E [Ha _]]]].
      now exists acc, g'.
    + intros msg E. apply choice_model_rank_based_raises in E.
      now apply model_error_not_unsupported in E.
    + intros _.
      destruct (choice_model_rank_based_total g recommendations default_alpha)
        as [acc [g' [E [Ha _]]]].
      now exists acc, g'.
    + intros msg E. apply country_centric_raises in E.
      now apply model_error_not_unsupported in E.
    + intros [E|[E|Hv]]; try discriminate E.
      destruct (country_centric_total g recommendations tracks "US" 0 false default_alpha
                  Hzero Hv) as [acc [g' [E [Ha _]]]].
      now exists acc, g'.
    + intros msg E. apply country_centric_raises in E.
      now apply model_error_not_unsupported in E.
    + intros [E|[E|Hv]]; try discriminate E.
      destruct (country_centric_total g recommendations tracks "US" 0 true default_alpha
                  Hzero Hv) as [acc [g' [E [Ha _]]]].
      now exists acc, g'.
Qed.

Lemma accept_new_recommendations_dispatch_witness :
  let batch := [{| user_id := 1; item_id := 0 |}; {| user_id := 1; item_id := 1 |}] in
  accept_new_recommendations 0%nat "bogus" batch [] [] 10
  = Raise (NotImplementedError "Unknown Choice model!") /\
  (forall msg, accept_new_recommendations 0%nat "rank_based" batch [] [] 10
               <> Raise (NotImplementedError msg)) /\
  exists acc g',
    accept_new_recommendations 0%nat "rank_based" batch [] [] 10 = Ok (acc, g') /\
    at_most_one_each batch acc.
Proof.
  cbv zeta.
  pose (batch := [{| user_id := 1; item_id := 0 |}; {| user_id := 1; item_id := 1 |}]).
  split; [|split].
  - apply (proj1 (accept_new_recommendations_dispatch 0%nat "bogus" batch [] [] 10)).
    simpl. intros [E|[E|[E|[E|[]]]]]; discriminate E.
  - apply (proj1 (proj2 (accept_new_recommendations_dispatch 0%nat "rank_based" batch [] [] 10)
                    ltac:(simpl; tauto))).
  - apply (proj2 (proj2 (accept_new_recommendations_dispatch 0%nat "rank_based" batch [] [] 10)
                    ltac:(simpl; tauto))).
    right. left. reflexivity.
Defined.

(** C10: the dispatcher reads neither [demographics] nor [k]: two calls with
    the same model name, batch, tracks table and state of the random source
    give the same result (the same table and final state of the source, or
    the same error) whatever the two demographics tables and the two values
    of [k]. It does no filtering of its own: under each of the four names the
    result is that of the named model on the whole batch. *)
Theorem accept_new_recommendations_ignores_demographics_and_k {G : Type}
  `{RandomSource G} (g : G) (choice_model : string)
  (recommendations : Recommendations) (tracks : Tracks)
  (demographics demographics' : Demographics) (k k' : Z) :
  accept_new_recommendations g choice_model recommendations demographics tracks k
  = accept_new_recommendations g choice_model recommendations demographics' tracks k' /\
  accept_new_recommendations g "random" recommendations demographics tracks k
  = choice_model_random g recommendations /\
  accept_new_recommendations g "rank_based" recommendations demographics tracks k
  = choice_model_rank_based g recommendations default_alpha /\
  accept_new_recommendations g "us_centric" recommendations demographics tracks k
  = country_centric g recommendations tracks "US" 0 false default_alpha /\
  accept_new_recommendations g "non_us_centric" recommendations demographics tracks k
  = country_centric g recommendations tracks "US" 0 true default_alpha.
Proof.
  split.
  - unfold accept_new_recommendations.
    destruct (String.eqb choice_model "random"); [reflexivity|].
    destruct (String.eqb choice_model "rank_based"); [reflexivity|].
    destruct (String.eqb choice_model "us_centric"); [reflexivity|].
    destruct (String.eqb choice_model "non_us_centric"); reflexivity.
  - repeat split.
Qed.

(** * Further properties of the code *)

(** ** The shape of the rank-based distribution *)

Lemma ranked_p_list_seq n alpha :
  ranked_p_list n alpha
  = map (fun i => ranked_prob (Z.of_nat i + 1) alpha) (seq 0 n).
Proof.
  unfold ranked_p_list, Np.range. rewrite map_map.
  replace (Z.to_nat (Z.of_nat n + 1 - 1)) with n by lia.
  apply map_ext. intros i. f_equal. lia.
Qed.

Lemma ranked_p_list_nth n alpha k :
  (k < n)%nat -> nth k (ranked_p_list n alpha) 0 = ranked_prob (Z.of_nat k + 1) alpha.
Proof.
  intros Hk. rewrite ranked_p_list_seq.
  rewrite nth_indep with (d' := ranked_prob (Z.of_nat 0 + 1) alpha)
    by (now rewrite length_map, length_seq).
  rewrite (map_nth (fun i => ranked_prob (Z.of_nat i + 1) alpha)).
  now rewrite seq_nth.
Qed.

Lemma div_nth w s k : nth k (Np.div w s) 0 = nth k w 0 / s.
Proof.
  unfold Np.div. replace 0 with (0 / s) at 1 by (unfold Rdiv; ring).
  apply (map_nth (fun x => x / s)).
Qed.

Lemma rank_based_p_list_nth N alpha k :
  (k < N)%nat ->
  nth k (rank_based_p_list N alpha) 0
  = ranked_prob (Z.of_nat k + 1) alpha / Np.sum (ranked_p_list N alpha).
Proof.
  intros Hk. unfold rank_based_p_list. cbv zeta.
  now rewrite div_nth, ranked_p_list_nth.
Qed.

Lemma entry_le_sum w x : Forall (fun y => 0 <= y) w -> In x w -> x <= Np.sum w.
Proof.
  induction 1 as [|y t Hy Ht IH]; simpl; [contradiction|].
  pose proof (sum_nonneg t Ht). intros [->|Hx]; [lra|]. specialize (IH Hx). lra.
Qed.

Lemma sum_ones {A : Type} (l : list A) : Np.sum (map (fun _ => 1) l) = INR (length l).
Proof.
  induction l as [|x t IH]; [reflexivity|].
  cbn [map Np.sum fold_right length]. fold (Np.sum (map (fun _ : A => 1) t)).
  rewrite IH, S_INR. ring.
Qed.

(** X2: with the decay rate 0 the rank-based model is the uniform one: each
    of the [N] candidates has the probability [1 / N]. *)
Theorem rank_based_p_list_uniform_at_zero (N : nat) :
  rank_based_p_list N 0 = repeat (1 / INR N) N.
Proof.
  unfold rank_based_p_list. cbv zeta. rewrite ranked_p_list_seq.
  rewrite (map_ext (fun i => ranked_prob (Z.of_nat i + 1) 0) (fun _ => 1))
    by (intros i; unfold ranked_prob;
        replace (- 0 * IZR (Z.of_nat i + 1)) with 0 by ring; apply exp_0).
  rewrite sum_ones, length_seq. unfold Np.div. rewrite map_map.
  rewrite map_const. now rewrite length_seq.
Qed.

(** ** The prefilter in front of the dispatcher *)

(** X6: the prefilter changes nothing: for every batch, demographics table,
    tracks table and control country (absent, empty or a country code) it
    returns the batch as it got it, so the dispatcher gives the same result
    on a prefiltered batch as on the batch itself. *)
Theorem prefilter_recommendations_changes_nothing {G : Type} `{RandomSource G}
  (g : G) (choice_model : string) (recommendations : Recommendations)
  (demographics : Demographics) (tracks : Tracks)
  (control_country : option string) (k : Z) :
  prefilter_recommendations recommendations demographics tracks control_country
  = recommendations /\
  accept_new_recommendations g choice_model
    (prefilter_recommendations recommendations demographics tracks control_country)
    demographics tracks k
  = accept_new_recommendations g choice_model recommendations demographics tracks k.
Proof.
  pose proof (prefilter_recommendations_identity recommendations demographics tracks
                control_country) as E.
  split; [exact E | now rewrite E].
Qed.

(** ** The order of the output rows *)

Section LoopOrder.

Context {G : Type}.
Variable body : G -> Z -> result (option row * G).
Variable skips : Z -> bool.

(** When the body succeeds for every user, appending a row of the user
    unless [skips] holds, the users of the appended rows are the users of
    the loop that are not skipped, in the order of the loop. *)
Lemma for_each_user_order users :
  (forall u, In u users -> forall g, exists o g1,
      body g u = Ok (o, g1) /\
      match o with
      | None => skips u = true
      | Some a => skips u = false /\ user_id a = u
      end) ->
  forall g acc, exists new g',
    for_each_user body users g acc = Ok (acc ++ new, g') /\
    map user_id new = filter (fun u => negb (skips u)) users.
Proof.
  induction users as [|v rest IH]; intros Hbody g acc.
  - exists [], g. simpl. now rewrite app_nil_r.
  - destruct (Hbody v (or_introl eq_refl) g) as [o [g1 [Eb Ho]]].
    assert (Hrest : forall u, In u rest -> forall g, exists o g1,
               body g u = Ok (o, g1) /\
               match o with
               | None => skips u = true
               | Some a => skips u = false /\ user_id a = u
               end).
    { intros u Hu. apply Hbody. now right. }
    cbn [for_each_user filter]. rewrite Eb. cbn [bind fst snd]. destruct o as [a|].
    + destruct Ho as [Hs Hu].
      destruct (IH Hrest g1 (acc ++ [a])) as [new [g' [E Hm]]].
      exists (a :: new), g'. rewrite <- app_assoc in E. split; [exact E|].
      rewrite Hs. cbn [negb map]. now rewrite Hu, Hm.
    + destruct (IH Hrest g1 acc) as [new [g' [E Hm]]].
      exists new, g'. split; [exact E|]. now rewrite Ho.
Qed.

End LoopOrder.

Lemma filter_all {A : Type} (l : list A) : filter (fun _ => true) l = l.
Proof. induction l as [|x t IH]; simpl; [reflexivity | now rewrite IH]. Qed.

(** X7: the random model and the rank-based model return the users in the
    order in which they first appear in the batch: the column [user_id] of
    the output is [unique()] of the column [user_id] of the batch, so the
    output has as many rows as the batch has distinct users. The random model
    always returns such a table; every table the rank-based model returns is
    one, and for a decay rate between 0 and 700 it returns. *)
Theorem output_users_in_order_of_appearance {G : Type} `{RandomSource G} (g : G)
  (recommendations : Recommendations) :
  (exists acc g', choice_model_random g recommendations = Ok (acc, g') /\
                  map user_id acc = Pd.unique (map user_id recommendations)) /\
  (forall alpha acc g',
      choice_model_rank_based g recommendations alpha = Ok (acc, g') ->
      map user_id acc = Pd.unique (map user_id recommendations)) /\
  (forall alpha, 0 <= alpha <= 700 ->
      exists acc g', choice_model_rank_based g recommendations alpha = Ok (acc, g') /\
                     map user_id acc = Pd.unique (map user_id recommendations)).
Proof.
  assert (Hrank : forall alpha, exists acc g',
             choice_model_rank_based g recommendations alpha = Ok (acc, g') /\
             map user_id acc = Pd.unique (map user_id recommendations)).
  { intros alpha.
    destruct (for_each_user_order (choice_model_rank_based_body recommendations alpha)
                (fun _ => false) (Pd.unique (map user_id recommendations)))
      with (g := g) (acc := @nil row) as [new [g' [E Hm]]].
    { intros u Hu g0. apply (proj1 (unique_In _ _)) in Hu.
      destruct (choice_model_rank_based_body_ok recommendations alpha g0 u Hu)
        as [a [g1 [Eb [Ha _]]]].
      exists (Some a), g1. tauto. }
    exists new, g'. split; [exact E|]. now rewrite Hm, filter_all. }
  split; [|split].
  - destruct (for_each_user_order (choice_model_random_body recommendations)
                (fun _ => false) (Pd.unique (map user_id recommendations)))
      with (g := g) (acc := @nil row) as [new [g' [E Hm]]].
    { intros u Hu g0. apply (proj1 (unique_In _ _)) in Hu.
      destruct (choice_model_random_body_ok recommendations g0 u Hu) as [a [g1 [Eb [Ha _]]]].
      exists (Some a), g1. tauto. }
    exists new, g'. split; [exact E|]. now rewrite Hm, filter_all.
  - intros alpha acc g' E. destruct (Hrank alpha) as [acc0 [g0 [E0 Hm]]].
    rewrite E in E0. inversion E0. now subst.
  - intros alpha _. apply Hrank.
Qed.

Lemma output_users_in_order_of_appearance_witness :
  let batch := [{| user_id := 2; item_id := 1 |}; {| user_id := 1; item_id := 0 |};
                {| user_id := 2; item_id := 5 |}] in
  exists acc g',
    choice_model_rank_based 0%nat batch (1 / 10) = Ok (acc, g') /\
    map user_id acc = [2%Z; 1%Z].
Proof.
  cbv zeta.
  exact (proj2 (proj2 (output_users_in_order_of_appearance 0%nat
           [{| user_id := 2; item_id := 1 |}; {| user_id := 1; item_id := 0 |};
            {| user_id := 2; item_id := 5 |}])) (1 / 10) ltac:(lra)).
Defined.

(** ** When the country-centric model returns *)

Lemma loc_user_idempotent recommendations u :
  Pd.loc_user (Pd.loc_user recommendations u) u = Pd.loc_user recommendations u.
Proof.
  unfold Pd.loc_user. induction recommendations as [|r t IH]; [reflexivity|].
  cbn [filter]. destruct (Z.eqb (user_id r) u) eqn:E; [|exact IH].
  cbn [filter]. rewrite E. now f_equal.
Qed.

Section CountryCentricErrors.

Context {G : Type} `{RandomSource G}.

Lemma country_centric_body_local recommendations tracks country ncc invert alpha (g : G) u :
  country_centric_body recommendations tracks country ncc invert alpha g u
  = country_centric_body (Pd.loc_user recommendations u) tracks country ncc invert alpha g u.
Proof.
  unfold country_centric_body. cbv zeta. now rewrite loc_user_idempotent.
Qed.

(** A user all of whose items are row positions of the tracks table is
    handled without an error. *)
Lemma country_centric_body_returns recommendations tracks country ncc invert alpha (g : G) u :
  0 <= ncc -> In u (map user_id recommendations) ->
  positions_valid tracks (Pd.loc_user recommendations u) ->
  exists o g1,
    country_centric_body recommendations tracks country ncc invert alpha g u = Ok (o, g1).
Proof.
  intros Hn Hu Hv. rewrite country_centric_body_local.
  assert (Hu' : In u (map user_id (Pd.loc_user recommendations u))).
  { apply in_map_iff in Hu. destruct Hu as [r [Hr Hin]].
    apply in_map_iff. exists r. split; [assumption|]. apply loc_user_In. tauto. }
  destruct (country_centric_body_ok (Pd.loc_user recommendations u) tracks country ncc
              invert alpha g u Hn Hv Hu') as [w [_ [o [g1 [E _]]]]].
  now exists o, g1.
Qed.

(** A user with an item that is no row position of the tracks table makes
    the lookup of line 71 raise. *)
Lemma country_centric_body_index_error recommendations tracks country ncc invert alpha
      (g : G) u :
  ~ positions_valid tracks (Pd.loc_user recommendations u) ->
  country_centric_body recommendations tracks country ncc invert alpha g u
  = Raise IndexError.
Proof.
  intros Hv. unfold country_centric_body, country_centric_p_list,
    country_centric_weights, from_country_flags. cbv zeta.
  rewrite iloc_list_out_of_range; [reflexivity|].
  unfold positions_valid in Hv. apply neg_Forall_Exists_neg in Hv.
  - apply Exists_exists in Hv. destruct Hv as [r [Hr Hbad]].
    apply Exists_exists. exists (item_id r). split; [now apply in_map | exact Hbad].
  - intros r.
    destruct (Z_le_dec (- Z.of_nat (length tracks)) (item_id r));
      destruct (Z_lt_dec (item_id r) (Z.of_nat (length tracks))); (left; lia) || (right; lia).
Qed.

Lemma positions_valid_dec tracks recommendations :
  {positions_valid tracks recommendations} + {~ positions_valid tracks recommendations}.
Proof.
  unfold positions_valid. apply Forall_dec. intros r.
  destruct (Z_le_dec (- Z.of_nat (length tracks)) (item_id r));
    destruct (Z_lt_dec (item_id r) (Z.of_nat (length tracks))); (left; lia) || (right; lia).
Qed.

(** The loop raises [e] as soon as the body raises [e] for one of the users
    and does nothing else than return or raise [e] for the others. *)
Lemma for_each_user_raises_at (body : G -> Z -> result (option row * G)) e users :
  (forall u, In u users -> forall g,
      (exists o g1, body g u = Ok (o, g1)) \/ body g u = Raise e) ->
  (exists u, In u users /\ forall g, body g u = Raise e) ->
  forall g acc, for_each_user body users g acc = Raise e.
Proof.
  induction users as [|v rest IH]; intros Hall [u0 [Hin Hbad]] g acc.
  - contradiction.
  - cbn [for_each_user].
    destruct (Hall v (or_introl eq_refl) g) as [[o [g1 Eb]]|Eb]; rewrite Eb; [|reflexivity].
    cbn [bind fst snd].
    assert (Hrest : exists u, In u rest /\ forall g, body g u = Raise e).
    { destruct Hin as [<-|Hin].
      - rewrite Hbad in Eb. discriminate Eb.
      - now exists u0. }
    assert (Hall' : forall u, In u rest -> forall g,
               (exists o g1, body g u = Ok (o, g1)) \/ body g u = Raise e).
    { intros u Hu. apply Hall. now right. }
    destruct o; now apply IH.
Qed.

End CountryCentricErrors.

(** X8: with a chance between 0 and 1 and the default decay rate,
    [country_centric] returns a table when every item id of the batch is a
    row position of the tracks table; otherwise it raises [IndexError] and
    returns nothing, also for the users whose own items are all in the
    table. *)
Theorem country_centric_returns_iff_positions_valid {G : Type} `{RandomSource G} (g : G)
  (recommendations : Recommendations) (tracks : Tracks) (country : string)
  (non_country_chance : R) (invert : bool) :
  0 <= non_country_chance <= 1 ->
  (positions_valid tracks recommendations ->
   exists acc g',
     country_centric g recommendations tracks country non_country_chance invert
                     default_alpha
     = Ok (acc, g')) /\
  (~ positions_valid tracks recommendations ->
   country_centric g recommendations tracks country non_country_chance invert
                   default_alpha
   = Raise IndexError).
Proof.
  intros [Hn _]. split.
  - intros Hv.
    destruct (country_centric_total g recommendations tracks country non_country_chance
                invert default_alpha Hn Hv) as [acc [g' [E _]]].
    now exists acc, g'.
  - intros Hv. unfold country_centric. apply for_each_user_raises_at.
    + intros u Hu g0. apply (proj1 (unique_In _ _)) in Hu.
      destruct (positions_valid_dec tracks (Pd.loc_user recommendations u)) as [Hvu|Hvu].
      * left. now apply country_centric_body_returns.
      * right. now apply country_centric_body_index_error.
    + unfold positions_valid in Hv. apply neg_Forall_Exists_neg in Hv.
      * apply Exists_exists in Hv. destruct Hv as [r [Hr Hbad]].
        exists (user_id r). split; [apply unique_In; now apply in_map|].
        intros g0. apply country_centric_body_index_error.
        unfold positions_valid. rewrite Forall_forall. intros Hall.
        apply Hbad. apply Hall. apply loc_user_In. tauto.
      * intros r.
        destruct (Z_le_dec (- Z.of_nat (length tracks)) (item_id r));
          destruct (Z_lt_dec (item_id r) (Z.of_nat (length tracks)));
          (left; lia) || (right; lia).
Qed.

Lemma country_centric_returns_iff_positions_valid_witness :
  let tracks := [{| track_item_id := 0; track_country := "US" |};
                 {| track_item_id := 1; track_country := "DE" |}] in
  (exists acc g',
     country_centric 0%nat [{| user_id := 1; item_id := 0 |}; {| user_id := 2; item_id := -2 |}]
                     tracks "US" (1 / 2) false default_alpha = Ok (acc, g')) /\
  country_centric 0%nat [{| user_id := 1; item_id := 0 |}; {| user_id := 2; item_id := 2 |}]
                  tracks "US" (1 / 2) false default_alpha = Raise IndexError.
Proof.
  cbv zeta. split.
  - apply (proj1 (country_centric_returns_iff_positions_valid 0%nat
                    [{| user_id := 1; item_id := 0 |}; {| user_id := 2; item_id := -2 |}]
                    [{| track_item_id := 0; track_country := "US" |};
                     {| track_item_id := 1; track_country := "DE" |}]
                    "US" (1 / 2) false ltac:(lra))).
    unfold positions_valid. repeat constructor; simpl; lia.
  - apply (proj2 (country_centric_returns_iff_positions_valid 0%nat
                    [{| user_id := 1; item_id := 0 |}; {| user_id := 2; item_id := 2 |}]
                    [{| track_item_id := 0; track_country := "US" |};
                     {| track_item_id := 1; track_country := "DE" |}]
                    "US" (1 / 2) false ltac:(lra))).
    unfold positions_valid. intros Hv. inversion Hv as [|? ? _ Hv2].
    inversion Hv2 as [|? ? Hbad _]. simpl in Hbad. lia.
Defined.

(** ** Who is skipped by the country-centric model *)

Lemma from_country_flags_map tracks items country fc :
  from_country_flags tracks items country = Ok fc ->
  fc = map (is_from_country tracks country) items.
Proof.
  unfold from_country_flags. revert fc.
  induction items as [|i rest IH]; intros fc; cbn [Pd.iloc_list map].
  - cbn [bind map]. intros E. now inversion E.
  - unfold is_from_country at 1.
    destruct (Pd.iloc tracks i) as [t|e]; cbn [bind]; [|discriminate].
    destruct (Pd.iloc_list tracks rest) as [rs|e]; cbn [bind map]; [|discriminate].
    intros E. inversion E. f_equal. now apply IH.
Qed.

Lemma existsb_map {A B : Type} (f : B -> bool) (h : A -> B) l :
  existsb f (map h l) = existsb (fun x => f (h x)) l.
Proof. induction l as [|x t IH]; simpl; [reflexivity | now rewrite IH]. Qed.

Lemma all_zero_mul a b :
  Forall (fun x => 0 < x) a -> length a = length b ->
  all_zero (Np.mul a b) = all_zero b.
Proof.
  unfold all_zero, Np.mul. intros Ha. revert b.
  induction Ha as [|x t Hx _ IH]; intros [|y b] E; simpl in E; try discriminate.
  - reflexivity.
  - cbn [combine map forallb fst snd]. rewrite IH by lia. f_equal.
    destruct (Req_dec_T (x * y) 0) as [E0|E0], (Req_dec_T y 0) as [Ey|Ey];
      try reflexivity.
    + apply Rmult_integral in E0. lra.
    + subst y. rewrite Rmult_0_r in E0. congruence.
Qed.

Lemma country_p_mod_zero_chance fc invert :
  all_zero (country_p_mod fc 0 invert)
  = negb (existsb (fun x => Bool.eqb x (negb invert)) fc).
Proof.
  unfold all_zero, country_p_mod.
  destruct invert; induction fc as [|[|] t IH]; cbn [map forallb existsb negb Bool.eqb];
    try reflexivity;
    repeat match goal with
           | |- context [Req_dec_T ?a ?b] => destruct (Req_dec_T a b); try lra
           end;
    cbn [andb orb negb]; try reflexivity; exact IH.
Qed.

Lemma country_p_mod_positive_chance fc ncc invert :
  ncc <> 0 -> fc <> [] -> all_zero (country_p_mod fc ncc invert) = false.
Proof.
  intros Hn Hne. destruct fc as [|x t]; [congruence|].
  unfold all_zero, country_p_mod.
  destruct invert, x; cbn [map forallb];
    match goal with
    | |- context [Req_dec_T ?a ?b] => destruct (Req_dec_T a b); [lra | reflexivity]
    end.
Qed.

(** The rule of line 83 in terms of the candidates: with chance 0 a user is
    skipped when no candidate is of the favoured class; with a positive
    chance no user is skipped. *)
Lemma country_centric_skip_rule tracks items country ncc invert alpha w :
  items <> [] ->
  country_centric_weights tracks items country ncc invert alpha = Ok w ->
  all_zero w
  = if Req_dec_T ncc 0 then negb (existsb (favoured tracks country invert) items)
    else false.
Proof.
  intros Hne. unfold country_centric_weights.
  destruct (from_country_flags tracks items country) as [fc|e] eqn:Ef; cbn [bind];
    [|discriminate].
  intros E. inversion E as [Ew]. clear E.
  pose proof (from_country_flags_map _ _ _ _ Ef) as Hfc.
  assert (Hlen : length fc = length items) by (rewrite Hfc; apply length_map).
  rewrite all_zero_mul;
    [| apply ranked_p_list_pos
     | now rewrite ranked_p_list_length, country_p_mod_length].
  destruct (Req_dec_T ncc 0) as [->|Hn].
  - rewrite country_p_mod_zero_chance, Hfc, existsb_map. reflexivity.
  - apply country_p_mod_positive_chance; [assumption|].
    intros ->. destruct items; [congruence | discriminate].
Qed.

Section CountryCentricOrder.

Context {G : Type} `{RandomSource G}.

(** The users of the output of the country-centric model, in order. *)
Lemma country_centric_output_users (g : G) recommendations tracks country ncc invert alpha :
  0 <= ncc -> positions_valid tracks recommendations ->
  exists acc g',
    country_centric g recommendations tracks country ncc invert alpha = Ok (acc, g') /\
    map user_id acc
    = filter (fun u => if Req_dec_T ncc 0
                       then has_favoured tracks country invert recommendations u
                       else true)
             (Pd.unique (map user_id recommendations)).
Proof.
  intros Hn Hv. unfold country_centric.
  set (skips := fun u => if Req_dec_T ncc 0
                         then negb (has_favoured tracks country invert recommendations u)
                         else false).
  destruct (for_each_user_order
              (country_centric_body recommendations tracks country ncc invert alpha)
              skips (Pd.unique (map user_id recommendations)))
    with (g := g) (acc := @nil row) as [new [g' [E Hm]]].
  { intros u Hu g0. apply (proj1 (unique_In _ _)) in Hu.
    destruct (country_centric_body_ok recommendations tracks country ncc invert alpha g0 u
                Hn Hv Hu) as [w [Ew [o [g1 [Eb Ho]]]]].
    exists o, g1. split; [exact Eb|].
    assert (Hne : map item_id (Pd.loc_user recommendations u) <> []).
    { pose proof (loc_user_nonempty recommendations u Hu).
      destruct (Pd.loc_user recommendations u); [congruence | discriminate]. }
    pose proof (country_centric_skip_rule _ _ _ _ _ _ _ Hne Ew) as Hrule.
    rewrite existsb_map in Hrule. fold (has_favoured tracks country invert recommendations u) in Hrule.
    unfold skips. rewrite <- Hrule. destruct o; tauto. }
  exists new, g'. split; [exact E|]. rewrite Hm. apply filter_ext.
  intros u. unfold skips. destruct (Req_dec_T ncc 0); [apply negb_involutive | reflexivity].
Qed.

End CountryCentricOrder.

Lemma within_rank_limit_short recommendations :
  (Z.of_nat (length recommendations) <= 7000)%Z -> within_rank_limit recommendations.
Proof.
  intros Hlen u.
  assert (Hle : (length (Pd.loc_user recommendations u) <= length recommendations)%nat).
  { unfold Pd.loc_user. clear Hlen. induction recommendations as [|r t IH]; simpl; [lia|].
    destruct (Z.eqb (user_id r) u); simpl; lia. }
  lia.
Qed.



(** X9: with a chance between [2^-20] and 1 the country-centric model skips
    nobody: when every item id of the batch is a row position of the tracks
    table and no user has more than 7000 candidates, it returns one row for
    each user of the batch, in the order in which the users first appear,
    every row being a row of the batch. *)
Theorem country_centric_positive_chance_keeps_everyone {G : Type} `{RandomSource G}
  (g : G) (recommendations : Recommendations) (tracks : Tracks) (country : string)
  (non_country_chance : R) (invert : bool) :
  / 2 ^ 20 <= non_country_chance <= 1 ->
  within_rank_limit recommendations ->
  positions_valid tracks recommendations ->
  exists acc g',
    country_centric g recommendations tracks country non_country_chance invert
                    default_alpha
    = Ok (acc, g') /\
    map user_id acc = Pd.unique (map user_id recommendations) /\
    exactly_one_each recommendations acc.
Proof.
  intros [Hlow _] _ Hv.
  assert (Hn : 0 < non_country_chance).
  { assert (0 < / 2 ^ 20) by (apply Rinv_0_lt_compat; lra). lra. }
  destruct (country_centric_output_users g recommendations tracks country
              non_country_chance invert default_alpha ltac:(lra) Hv) as [acc [g' [E Hm]]].
  destruct (country_centric_total g recommendations tracks country non_country_chance
              invert default_alpha ltac:(lra) Hv) as [acc2 [g2 [E2 [Hat _]]]].
  rewrite E in E2. inversion E2. subst acc2 g2.
  assert (Hu : map user_id acc = Pd.unique (map user_id recommendations)).
  { rewrite Hm. destruct (Req_dec_T non_country_chance 0); [lra | apply filter_all]. }
  exists acc, g'. repeat split; try assumption; try apply Hat.
  intros u Hin. unfold rows_of_user. rewrite Hu, unique_count.
  destruct (in_dec _ _ _); tauto.
Qed.

Lemma country_centric_positive_chance_keeps_everyone_witness :
  let tracks := [{| track_item_id := 0; track_country := "US" |};
                 {| track_item_id := 1; track_country := "DE" |}] in
  let batch := [{| user_id := 2; item_id := 1 |}; {| user_id := 1; item_id := 0 |};
                {| user_id := 2; item_id := 1 |}] in
  exists acc g',
    country_centric 0%nat batch tracks "US" (1 / 2) false default_alpha = Ok (acc, g') /\
    map user_id acc = Pd.unique (map user_id batch) /\
    exactly_one_each batch acc.
Proof.
  cbv zeta. apply country_centric_positive_chance_keeps_everyone.
  - split; [|lra]. assert (2 <= 2 ^ 20) by lra.
    apply Rle_trans with (/ 2); [apply Rinv_le_contravar; lra | lra].
  - apply within_rank_limit_short. simpl. lia.
  - unfold positions_valid. repeat constructor; simpl; lia.
Defined.

(** X10: with chance 0 the country-centric model keeps exactly the users
    that have a candidate of the favoured class (a track of the country, or
    in inverted mode a track of another country): when every item id of the
    batch is a row position of the tracks table and no user has more than
    7000 candidates, the users of the output are those users of the batch,
    in the order in which they first appear. *)
Theorem country_centric_zero_chance_keeps_favoured {G : Type} `{RandomSource G}
  (g : G) (recommendations : Recommendations) (tracks : Tracks) (country : string)
  (invert : bool) :
  within_rank_limit recommendations ->
  positions_valid tracks recommendations ->
  exists acc g',
    country_centric g recommendations tracks country 0 invert default_alpha
    = Ok (acc, g') /\
    map user_id acc
    = filter (has_favoured tracks country invert recommendations)
             (Pd.unique (map user_id recommendations)).
Proof.
  intros _ Hv.
  destruct (country_centric_output_users g recommendations tracks country 0 invert
              default_alpha ltac:(lra) Hv) as [acc [g' [E Hm]]].
  exists acc, g'. split; [exact E|]. rewrite Hm. apply filter_ext.
  intros u. destruct (Req_dec_T 0 0); [reflexivity | lra].
Qed.

Lemma country_centric_zero_chance_keeps_favoured_witness :
  let tracks := [{| track_item_id := 0; track_country := "US" |};
                 {| track_item_id := 1; track_country := "DE" |}] in
  let batch := [{| user_id := 2; item_id := 1 |}; {| user_id := 1; item_id := 0 |};
                {| user_id := 1; item_id := 1 |}] in
  exists acc g',
    country_centric 0%nat batch tracks "US" 0 false default_alpha = Ok (acc, g') /\
    map user_id acc = [1%Z].
Proof.
  cbv zeta.
  apply (country_centric_zero_chance_keeps_favoured 0%nat
           [{| user_id := 2; item_id := 1 |}; {| user_id := 1; item_id := 0 |};
            {| user_id := 1; item_id := 1 |}]
           [{| track_item_id := 0; track_country := "US" |};
            {| track_item_id := 1; track_country := "DE" |}]
           "US" false).
  - apply within_rank_limit_short. simpl. lia.
  - unfold positions_valid. repeat constructor; simpl; lia.
Defined.

(** ** The distribution of the country-centric model *)

Lemma country_centric_p_list_some tracks items country ncc invert alpha p :
  0 <= ncc ->
  country_centric_p_list tracks items country ncc invert alpha = Ok (Some p) ->
  exists w,
    country_centric_weights tracks items country ncc invert alpha = Ok w /\
    length w = length items /\
    Forall (fun x => 0 <= x) w /\
    0 < Np.sum w /\
    p = Np.div w (Np.sum w).
Proof.
  intros Hn. unfold country_centric_p_list.
  destruct (country_centric_weights tracks items country ncc invert alpha) as [w|e] eqn:Ew;
    cbn [bind]; [|discriminate].
  intros Ep. exists w. split; [reflexivity|].
  assert (Hw : length w = length items /\ Forall (fun x => 0 <= x) w).
  { unfold country_centric_weights in Ew.
    destruct (from_country_flags tracks items country) as [fc|e] eqn:Ef; cbn [bind] in Ew;
      [|discriminate].
    inversion Ew as [Ew']. pose proof (from_country_flags_map _ _ _ _ Ef) as Hfc.
    split.
    - rewrite mul_length; rewrite ranked_p_list_length;
        [reflexivity | now rewrite country_p_mod_length, Hfc, length_map].
    - apply mul_nonneg; [|now apply country_p_mod_nonneg].
      eapply Forall_impl; [|apply ranked_p_list_pos]. simpl. intros; lra. }
  destruct Hw as [Hlen Hw].
  destruct w as [|x t] eqn:Ewl; [discriminate Ep|]. rewrite <- Ewl in *.
  destruct (max_zero_all_zero w ltac:(rewrite Ewl; discriminate) Hw) as [m [Em Hm]].
  rewrite Em in Ep. cbn [bind] in Ep.
  destruct (Req_dec_T m 0) as [Hz|Hz]; [discriminate Ep|].
  inversion Ep. repeat split; try assumption.
  apply sum_pos_not_all_zero; [assumption|].
  destruct (all_zero w); [|reflexivity]. destruct Hz. now apply Hm.
Qed.

(** ** The class of the accepted item *)

Lemma mul_nth a b k : nth k (Np.mul a b) 0 = nth k a 0 * nth k b 0.
Proof.
  unfold Np.mul. revert b k. induction a as [|x a IH]; intros b k.
  - destruct k; simpl; ring.
  - destruct b as [|y b].
    + destruct k; simpl; ring.
    + destruct k as [|k]; cbn [combine map nth fst snd]; [reflexivity | apply IH].
Qed.

Lemma country_p_mod_nonzero_entry fc invert k :
  nth k (country_p_mod fc 0 invert) 0 <> 0 ->
  exists x, nth_error fc k = Some x /\ Bool.eqb x (negb invert) = true.
Proof.
  unfold country_p_mod. revert k.
  induction fc as [|x t IH]; intros k Hk.
  - destruct invert, k; simpl in Hk; lra.
  - destruct k as [|k].
    + exists x. split; [reflexivity|].
      destruct invert, x; simpl in Hk; try reflexivity; lra.
    + apply IH. destruct invert; exact Hk.
Qed.

Lemma iloc_of_nat_inv {A : Type} (rows : list A) (k : nat) r :
  Pd.iloc rows (Z.of_nat k) = Ok r -> nth_error rows k = Some r.
Proof.
  unfold Pd.iloc. cbv zeta.
  replace (Z.of_nat k <? 0)%Z with false by (symmetry; apply Z.ltb_ge; lia).
  destruct (_ && _); [|discriminate]. rewrite Nat2Z.id.
  destruct (nth_error rows k); [|discriminate]. intros E. now inversion E.
Qed.

Section Support.

Context {G : Type} {RS : RandomSource G} {SS : SupportSource G}.

Lemma np_random_choice_support (g : G) n p c :
  np_random_choice g n p = Ok c -> 0 < nth (fst c) p 0.
Proof.
  unfold np_random_choice.
  destruct (Nat.eqb n 0) eqn:E0; [discriminate|].
  destruct (negb _) eqn:El; [discriminate|].
  destruct (existsb _ p) eqn:En; [discriminate|].
  destruct (Rlt_dec _ _) as [|Hs]; [discriminate|].
  intros E. inversion E. apply weighted_position_support. repeat split.
  - intros ->. apply negb_false_iff, Nat.eqb_eq in El. simpl in El.
    subst n. discriminate E0.
  - apply Forall_forall. intros x Hx.
    destruct (Rlt_dec x 0) as [Hneg|]; [|lra].
    rewrite (negative_entry p x Hx Hneg) in En. discriminate.
  - lra.
Qed.

Lemma country_centric_body_favoured recommendations tracks country invert alpha
      (g : G) u a g1 :
  country_centric_body recommendations tracks country 0 invert alpha g u = Ok (Some a, g1) ->
  favoured tracks country invert (item_id a) = true.
Proof.
  unfold country_centric_body. cbv zeta.
  set (recs := Pd.loc_user recommendations u).
  destruct (country_centric_p_list _ _ _ _ _ _) as [[p|]|e] eqn:Ep; cbn [bind];
    try discriminate.
  destruct (np_random_choice g (length recs) p) as [c|e] eqn:Ec; cbn [bind]; [|discriminate].
  destruct (Pd.iloc recs (Z.of_nat (fst c))) as [r|e] eqn:Er; cbn [bind]; [|discriminate].
  intros E. inversion E. subst. cbn [item_id].
  pose proof (np_random_choice_support _ _ _ _ Ec) as Hpos.
  destruct (country_centric_p_list_some _ _ _ _ _ _ _ (Rle_refl 0) Ep)
    as [w [Ew [_ [_ [Hs ->]]]]].
  rewrite div_nth in Hpos.
  assert (Hw : nth (fst c) w 0 <> 0).
  { intros E0. rewrite E0 in Hpos. unfold Rdiv in Hpos. rewrite Rmult_0_l in Hpos. lra. }
  unfold country_centric_weights in Ew.
  destruct (from_country_flags tracks (map item_id recs) country) as [fc|e] eqn:Ef;
    cbn [bind] in Ew; [|discriminate].
  inversion Ew as [Ew']. rewrite <- Ew', mul_nth in Hw.
  assert (Hmod : nth (fst c) (country_p_mod fc 0 invert) 0 <> 0).
  { intros E0. rewrite E0, Rmult_0_r in Hw. congruence. }
  destruct (country_p_mod_nonzero_entry _ _ _ Hmod) as [x [Hx Hfav]].
  rewrite (from_country_flags_map _ _ _ _ Ef), !nth_error_map in Hx.
  rewrite (iloc_of_nat_inv _ _ _ Er) in Hx. cbn [option_map] in Hx.
  inversion Hx. unfold favoured. now subst x.
Qed.

End Support.

(** X12: with chance 0 and a sampler that only draws candidates of positive
    probability, every item the country-centric model accepts is of the
    favoured class: its track (the row of the tracks table at position
    [item_id]) is from the country, or in inverted mode from another country.
    So every item accepted under the name [us_centric] is a US track and
    none accepted under [non_us_centric] is. *)
Theorem country_centric_zero_chance_accepts_favoured {G : Type} {RS : RandomSource G}
  {SS : SupportSource G} (g : G) (recommendations : Recommendations)
  (demographics : Demographics) (tracks : Tracks) (k : Z) :
  (forall country invert alpha acc g',
     country_centric g recommendations tracks country 0 invert alpha = Ok (acc, g') ->
     Forall (fun a => favoured tracks country invert (item_id a) = true) acc) /\
  (forall acc g',
     accept_new_recommendations g "us_centric" recommendations demographics tracks k
     = Ok (acc, g') ->
     Forall (fun a => is_from_country tracks "US" (item_id a) = true) acc) /\
  (forall acc g',
     accept_new_recommendations g "non_us_centric" recommendations demographics tracks k
     = Ok (acc, g') ->
     Forall (fun a => is_from_country tracks "US" (item_id a) = false) acc).
Proof.
  assert (Hgen : forall country invert alpha acc g',
     country_centric g recommendations tracks country 0 invert alpha = Ok (acc, g') ->
     Forall (fun a => favoured tracks country invert (item_id a) = true) acc).
  { intros country invert alpha acc g' E. unfold country_centric in E.
    destruct (for_each_user_partial
                (country_centric_body recommendations tracks country 0 invert alpha)
                (fun a => favoured tracks country invert (item_id a) = true))
      with (users := Pd.unique (map user_id recommendations)) (g := g)
           (acc := @nil row) (out := acc) (g' := g') as [new [-> [HQ _]]].
    - intros g0 u a g1 Eb. split.
      + eapply country_centric_body_row. exact Eb.
      + eapply country_centric_body_favoured. exact Eb.
    - exact E.
    - exact HQ. }
  split; [exact Hgen|]. split; intros acc g' E.
  - apply Hgen in E. eapply Forall_impl; [|exact E].
    intros a. unfold favoured. cbn [negb]. now destruct (is_from_country _ _ _).
  - apply Hgen in E. eapply Forall_impl; [|exact E].
    intros a. unfold favoured. cbn [negb]. now destruct (is_from_country _ _ _).
Qed.

Lemma country_centric_zero_chance_accepts_favoured_witness :
  let tracks := [{| track_item_id := 0; track_country := "US" |};
                 {| track_item_id := 1; track_country := "DE" |}] in
  let batch := [{| user_id := 1; item_id := 1 |}; {| user_id := 1; item_id := 0 |};
                {| user_id := 2; item_id := 1 |}] in
  exists acc g',
    accept_new_recommendations {| draws := 0 |} "us_centric" batch [] tracks 10
    = Ok (acc, g') /\
    Forall (fun a => is_from_country tracks "US" (item_id a) = true) acc.
Proof.
  cbv zeta.
  destruct (country_centric_total {| draws := 0 |}
              [{| user_id := 1; item_id := 1 |}; {| user_id := 1; item_id := 0 |};
               {| user_id := 2; item_id := 1 |}]
              [{| track_item_id := 0; track_country := "US" |};
               {| track_item_id := 1; track_country := "DE" |}]
              "US" 0 false default_alpha) as [acc [g' [E _]]].
  - lra.
  - unfold positions_valid. repeat constructor; simpl; lia.
  - exists acc, g'. split; [exact E|].
    exact (proj1 (proj2 (country_centric_zero_chance_accepts_favoured
                           {| draws := 0 |} _ [] _ 10)) acc g' E).
Defined.

(** ** Users whose candidates are all of the favoured class *)

Lemma country_p_mod_all_favoured fc ncc invert :
  Forall (fun x => Bool.eqb x (negb invert) = true) fc ->
  country_p_mod fc ncc invert = map (fun _ => 1) fc.
Proof.
  intros Hall. unfold country_p_mod.
  destruct invert; apply map_ext_in; intros x Hx;
    rewrite Forall_forall in Hall; specialize (Hall x Hx); now destruct x.
Qed.

(** X13: the chance plays no part for a user whose candidates are all of
    the favoured class: when every item id is a row position of the tracks
    table and the decay rate is the default one, the distribution of the
    country-centric model for such a user is the one of the rank-based model
    with its default decay rate, whatever the chance. *)
Theorem country_centric_one_class_is_rank_based (tracks : Tracks) (items : list Z)
  (country : string) (non_country_chance : R) (invert : bool) :
  items <> [] ->
  Forall (fun i => - Z.of_nat (length tracks) <= i < Z.of_nat (length tracks))%Z items ->
  Forall (fun i => favoured tracks country invert i = true) items ->
  country_centric_p_list tracks items country non_country_chance invert default_alpha
  = Ok (Some (rank_based_p_list (length items) default_alpha)).
Proof.
  intros Hne Hv Hall.
  destruct (from_country_flags_ok tracks items country Hv) as [fc [Ef Hlen]].
  pose proof (from_country_flags_map _ _ _ _ Ef) as Hfc.
  rewrite <- (country_centric_p_list_chance_one tracks items country invert
                default_alpha Hne Hv).
  unfold country_centric_p_list, country_centric_weights. rewrite Ef. cbn [bind].
  rewrite country_p_mod_all_favoured, country_p_mod_one; [reflexivity|].
  rewrite Hfc. apply Forall_map. exact Hall.
Qed.

Lemma country_centric_one_class_is_rank_based_witness :
  let tracks := [{| track_item_id := 0; track_country := "US" |};
                 {| track_item_id := 1; track_country := "DE" |};
                 {| track_item_id := 2; track_country := "US" |}] in
  country_centric_p_list tracks [2%Z; 0%Z] "US" 0 false default_alpha
  = Ok (Some (rank_based_p_list 2 default_alpha)).
Proof.
  cbv zeta.
  apply (country_centric_one_class_is_rank_based
           [{| track_item_id := 0; track_country := "US" |};
            {| track_item_id := 1; track_country := "DE" |};
            {| track_item_id := 2; track_country := "US" |}]
           [2%Z; 0%Z] "US" 0 false).
  - discriminate.
  - repeat constructor; simpl; lia.
  - repeat constructor.
Defined.
